(** * The ISF bulletin importer of eqcatalogue, embedded in Rocq

    This development embeds [eqcatalogue/importers/isf_bulletin.py] (the
    line classifier, the parse states and the [Importer.store] loop)
    together with [CatalogueDatabase.get_or_create] of
    [eqcatalogue/models.py], and states the properties of the stream
    parser over that embedding; the grouping of measures by event key
    of [eqcatalogue/grouping.py] and the converted measures of
    [eqcatalogue/models.py] follow.

    Python strings are [string]; the two per-run dictionaries of the
    parse context are [gmap string _]; exceptions are an inductive type
    threaded through a state-and-exception monad whose state is the
    importer object (so that whatever a method mutated before it raised
    stays mutated, as in Python). *)

From Stdlib Require Import ZArith Ascii String.
From stdpp Require Import base option list gmap strings sorting.

Local Open Scope Z_scope.

(** ** Python string primitives *)

Module PyStr.

(** [len(s)] *)
Definition len (s : string) : nat := String.length s.

(** [s[a:b]] for non-negative literal bounds: out-of-range bounds are
    clamped, never an error. *)
Definition slice (a b : nat) (s : string) : string :=
  String.substring a (b - a) s.

(** [s[i]] for a non-negative literal index: [None] stands for
    [IndexError]. *)
Definition index (i : nat) (s : string) : option ascii := String.get i s.

Fixpoint lstrip (s : string) : string :=
  match s with
  | String c s' => if Ascii.is_space c then lstrip s' else s
  | EmptyString => EmptyString
  end.

(** [s.rstrip()]: a whitespace character is dropped when everything
    after it has been dropped. *)
Fixpoint rstrip (s : string) : string :=
  match s with
  | String c s' =>
      match rstrip s' with
      | EmptyString => if Ascii.is_space c then EmptyString
                       else String c EmptyString
      | t => String c t
      end
  | EmptyString => EmptyString
  end.

(** [s.strip()] *)
Definition strip (s : string) : string := rstrip (lstrip s).

(** [s.split(sep)] for a one-character separator: always at least one
    field, empty fields kept. *)
Fixpoint split (sep : ascii) (s : string) : list string :=
  match s with
  | EmptyString => [EmptyString]
  | String c s' =>
      if decide (c = sep) then EmptyString :: split sep s'
      else match split sep s' with
           | f :: fs => String c f :: fs
           | [] => [String c EmptyString]
           end
  end.

Definition is_digit (c : ascii) : bool :=
  match Ascii.is_nat c with Some _ => true | None => false end.

Definition is_alpha (c : ascii) : bool :=
  let n := nat_of_ascii c in
  ((65 <=? n) && (n <=? 90) || (97 <=? n) && (n <=? 122))%nat.

(** [\w] of a byte-string pattern without flags: [[a-zA-Z0-9_]] *)
Definition is_word (c : ascii) : bool :=
  is_alpha c || is_digit c || bool_decide (c = "_"%char).

Definition lower (c : ascii) : ascii :=
  let n := nat_of_ascii c in
  if ((65 <=? n) && (n <=? 90))%nat then ascii_of_nat (n + 32) else c.

Fixpoint lower_str (s : string) : string :=
  match s with
  | String c s' => String (lower c) (lower_str s')
  | EmptyString => EmptyString
  end.

(** The longest prefix of digits, and what follows it. *)
Fixpoint span_digits (s : string) : string * string :=
  match s with
  | String c s' =>
      if is_digit c
      then let '(d, r) := span_digits s' in (String c d, r)
      else (EmptyString, s)
  | EmptyString => (EmptyString, EmptyString)
  end.

(** The value of a string of decimal digits read left to right. *)
Fixpoint digits_val (acc : Z) (s : string) : Z :=
  match s with
  | String c s' =>
      match Ascii.is_nat c with
      | Some d => digits_val (10 * acc + Z.of_nat d) s'
      | None => acc
      end
  | EmptyString => acc
  end.

(** An optional leading sign: [true] for [-]. *)
Definition take_sign (s : string) : bool * string :=
  match s with
  | String "-" s' => (true, s')
  | String "+" s' => (false, s')
  | _ => (false, s)
  end.

End PyStr.

(** ** Regular expressions, as the [re] module matches them

    A backtracking matcher with named groups, written in
    continuation-passing style. Repetition is greedy; a group inside a
    repetition keeps the text of its last iteration. The fuel bounds the
    number of iterations of a starred expression, each of which must
    consume at least one character; [String.length s + 1] is always
    enough. *)

Module Re.

Inductive regex : Type :=
| Eps
| Chr (c : ascii)                (* a literal character *)
| Cls (p : ascii → bool)         (* a character class, [.] included *)
| Bol                            (* [^] *)
| Eol                            (* [$] *)
| Seq (r1 r2 : regex)
| Star (r : regex)               (* [r*] *)
| Upto (n : nat) (r : regex)     (* [r{0,n}] *)
| Group (name : string) (r : regex).  (* [(?P<name>r)] *)

Definition groups := gmap string string.
Definition cont := string → groups → option groups.

Definition Plus (r : regex) : regex := Seq r (Star r).

(** A literal word, character by character. *)
Fixpoint Lit (s : string) : regex :=
  match s with
  | String c EmptyString => Chr c
  | String c s' => Seq (Chr c) (Lit s')
  | EmptyString => Eps
  end.

(** [.] matches anything but a newline. *)
Definition dot : regex := Cls (λ c, negb (bool_decide (c = "010"%char))).
Definition space : regex := Cls Ascii.is_space.
Definition word : regex := Cls PyStr.is_word.
Definition digit : regex := Cls PyStr.is_digit.

(** The text consumed between [s] and its suffix [s']. *)
Definition consumed (s s' : string) : string :=
  String.substring 0 (String.length s - String.length s') s.

Fixpoint run (fuel n0 : nat) (r : regex) (s : string) (g : groups)
    (k : cont) {struct fuel} : option groups :=
  (fix go (r : regex) (s : string) (g : groups) (k : cont) {struct r}
     : option groups :=
     match r with
     | Eps => k s g
     | Chr c =>
         match s with
         | String a s' => if decide (a = c) then k s' g else None
         | EmptyString => None
         end
     | Cls p =>
         match s with
         | String a s' => if p a then k s' g else None
         | EmptyString => None
         end
     | Bol => if decide (String.length s = n0) then k s g else None
     | Eol =>
         match s with
         | EmptyString => k s g
         | String "010" EmptyString => k s g
         | _ => None
         end
     | Seq r1 r2 => go r1 s g (λ s' g', go r2 s' g' k)
     | Star r' =>
         match fuel with
         | O => None
         | S f =>
             match go r' s g
                     (λ s' g',
                       if (String.length s' <? String.length s)%nat
                       then run f n0 (Star r') s' g' k else None) with
             | Some m => Some m
             | None => k s g
             end
         end
     | Upto n r' =>
         (fix upto (n : nat) (s : string) (g : groups) : option groups :=
            match n with
            | O => k s g
            | S n' =>
                match go r' s g (λ s' g', upto n' s' g') with
                | Some m => Some m
                | None => k s g
                end
            end) n s g
     | Group name r' =>
         go r' s g (λ s' g', k s' (<[name := consumed s s']> g'))
     end) r s g k.

(** [re.compile(r).match(line)]: the match is anchored at the start of
    the line and may end anywhere; the result is the [groupdict()] of
    the match object, a group that did not take part being absent. *)
Definition rmatch (r : regex) (line : string) : option groups :=
  run (S (String.length line)) (String.length line) r line ∅
    (λ _ g, Some g).

End Re.

(** ** Python values, exceptions and conversions *)

Module Py.

(** The exceptions the importer can meet. [UnexpectedLine] is the
    module's own; [ParsingFailure] carries the line number its message
    [ERR_MSG % line_num] is formatted from. *)
Inductive exn : Type :=
| UnexpectedLine
| ValueError
| IntegrityError
| AssertionError
| KeyError
| IndexError
| TypeError
| OverflowError
| AttributeError
| ParsingFailure (line_num : nat).

Global Instance exn_eq_dec : EqDecision exn.
Proof. solve_decision. Defined.

Inductive res (A : Type) : Type :=
| Ok (a : A)
| Err (e : exn).
Global Arguments Ok {A} a.
Global Arguments Err {A} e.

Definition bind {A B} (x : res A) (f : A → res B) : res B :=
  match x with Ok a => f a | Err e => Err e end.

(** A float is represented by the decimal number its literal denotes,
    [m * 10^e] with [m] not divisible by ten (or [m = e = 0]); binary
    rounding is outside the model. *)
Inductive pyfloat : Type :=
| Dec (m e : Z)
| Inf (neg : bool)
| NaN.

Global Instance pyfloat_eq_dec : EqDecision pyfloat.
Proof. solve_decision. Defined.

Fixpoint normalise (fuel : nat) (m e : Z) : pyfloat :=
  if m =? 0 then Dec 0 0
  else match fuel with
       | O => Dec m e
       | S f => if m mod 10 =? 0 then normalise f (m / 10) (e + 1)
                else Dec m e
       end.

(** [float(s)] of a string: surrounding whitespace is ignored; a sign,
    then [inf], [infinity] or [nan] in any case, or digits with an
    optional point and an optional exponent. *)
Definition float (s : string) : res pyfloat :=
  let '(neg, r) := PyStr.take_sign (PyStr.strip s) in
  let lr := PyStr.lower_str r in
  if bool_decide (lr = "inf" ∨ lr = "infinity") then Ok (Inf neg)
  else if bool_decide (lr = "nan") then Ok NaN
  else
    let '(d1, r1) := PyStr.span_digits r in
    let '(d2, r2) :=
      match r1 with
      | String "." r' => PyStr.span_digits r'
      | _ => (EmptyString, r1)
      end in
    if bool_decide (d1 = "" ∧ d2 = "") then Err ValueError
    else
      let mant := PyStr.digits_val 0 (d1 +:+ d2) in
      let mant := if neg then - mant else mant in
      let frac := Z.of_nat (String.length d2) in
      let fuel := String.length (d1 +:+ d2) in
      match r2 with
      | EmptyString => Ok (normalise fuel mant (- frac))
      | String c r3 =>
          if bool_decide (c = "e"%char ∨ c = "E"%char) then
            let '(eneg, r4) := PyStr.take_sign r3 in
            let '(d3, r5) := PyStr.span_digits r4 in
            if bool_decide (d3 = "" ∨ r5 ≠ "") then Err ValueError
            else
              let ex := PyStr.digits_val 0 d3 in
              let ex := if eneg then - ex else ex in
              Ok (normalise fuel mant (ex - frac))
          else Err ValueError
      end.

(** [int(s)] of a string, base ten. *)
Definition int (s : string) : res Z :=
  let '(neg, r) := PyStr.take_sign (PyStr.strip s) in
  let '(d, r') := PyStr.span_digits r in
  if bool_decide (d = "" ∨ r' ≠ "") then Err ValueError
  else let v := PyStr.digits_val 0 d in Ok (if neg then - v else v).

Record datetime : Type := {
  year : Z; month : Z; day : Z;
  hour : Z; minute : Z; second : Z; microsecond : Z
}.

Global Instance datetime_eq_dec : EqDecision datetime.
Proof. solve_decision. Defined.

Definition is_leap (y : Z) : bool :=
  (y mod 4 =? 0) && (negb (y mod 100 =? 0) || (y mod 400 =? 0)).

Definition days_in_month (y m : Z) : Z :=
  if m =? 2 then (if is_leap y then 29 else 28)
  else if bool_decide (m = 4 ∨ m = 6 ∨ m = 9 ∨ m = 11) then 30
  else 31.

Definition in_range (lo hi x : Z) : bool := (lo <=? x) && (x <=? hi).

(** [datetime.datetime] applied to a list of integer components: year,
    month and day are required, an eighth positional argument would be
    the time zone and an integer is not one; every component must fit
    a C [int]; the fields are then range-checked. *)
Definition make_datetime (components : list Z) : res datetime :=
  if bool_decide (length components < 3 ∨ 7 < length components)%nat
  then Err TypeError
  else if negb (forallb (in_range (- 2147483648) 2147483647) components)
  then Err OverflowError
  else
    let at_ i := nth i components 0 in
    let d := {| year := at_ 0%nat; month := at_ 1%nat; day := at_ 2%nat;
                hour := at_ 3%nat; minute := at_ 4%nat;
                second := at_ 5%nat; microsecond := at_ 6%nat |} in
    if in_range 1 9999 (year d) && in_range 1 12 (month d)
       && in_range 1 (days_in_month (year d) (month d)) (day d)
       && in_range 0 23 (hour d) && in_range 0 59 (minute d)
       && in_range 0 59 (second d) && in_range 0 999999 (microsecond d)
    then Ok d else Err ValueError.

(** What a measure field or a metadata entry may hold. *)
Inductive value : Type :=
| VNone
| VStr (s : string)
| VInt (z : Z)
| VFloat (f : pyfloat).

Global Instance value_eq_dec : EqDecision value.
Proof. solve_decision. Defined.

(** [for d in l: int(d)], left to right. *)
Fixpoint ints (l : list string) : res (list Z) :=
  match l with
  | [] => Ok []
  | d :: l' => bind (int d) (λ z, bind (ints l') (λ zs, Ok (z :: zs)))
  end.

End Py.

(** ** [eqcatalogue/models.py]: the domain classes and the catalogue *)

Module Models.
Import Py.

(** [EventSource(name)] *)
Record EventSource : Type := { es_name : string }.

(** [Agency], [Event] and [Origin] are unique by their [source_key]
    together with their event source. A reference to a stored object is
    represented by this natural key, which [get_or_create] keeps
    unique. *)
Record NaturalKey : Type := {
  source_key : string;
  eventsource : EventSource
}.

(** [Agency(source_key, eventsource)] has no other attribute. *)
Definition Agency : Type := NaturalKey.

(** [Event(source_key, eventsource, name=None)] *)
Record Event : Type := {
  ev_key : NaturalKey;
  ev_name : option string
}.

(** Modelled from the spec: the engine class of [eqcatalogue.datastores]
    is not part of the sources; [position_from_latlng] is the
    collaborator's [make_point(latitude, longitude)], an opaque
    constructor of a position value. *)
Record Position : Type := { latitude : pyfloat; longitude : pyfloat }.

Definition position_from_latlng (lat lng : pyfloat) : Position :=
  {| latitude := lat; longitude := lng |}.

(** The keyword arguments [_process_origin] hands to [_save_origin]. *)
Record OriginData : Type := {
  time : datetime;
  time_error : option pyfloat;
  time_rms : option pyfloat;
  position : Position;
  semi_major_90error : option pyfloat;
  semi_minor_90error : option pyfloat;
  depth : option pyfloat;
  depth_error : option pyfloat;
  azimuth_error : option Z
}.

(** [Origin(position, time, eventsource, source_key, **kwargs)] *)
Record Origin : Type := {
  or_key : NaturalKey;
  or_data : OriginData
}.

(** The [agency] a measure is keyed by is whatever [_save_measure]
    resolved: an agency, or the pair [(agency, created)] that
    [_save_agency] stores in the parse context. *)
Inductive agency_ref : Type :=
| AgencyObj (a : Agency)
| AgencyPair (a : Agency) (created : bool).

(** The [query_args] of a magnitude measure. *)
Record MeasureKey : Type := {
  mk_event : NaturalKey;
  mk_origin : NaturalKey;
  mk_agency : agency_ref;
  mk_scale : string
}.

(** [MagnitudeMeasure(agency, event, origin, scale, value,
    standard_error=None)] *)
Record MagnitudeMeasure : Type := {
  mm_key : MeasureKey;
  mm_value : value;
  mm_standard_error : value
}.

Global Instance EventSource_eq_dec : EqDecision EventSource.
Proof. solve_decision. Defined.
Global Instance NaturalKey_eq_dec : EqDecision NaturalKey.
Proof. solve_decision. Defined.
Global Instance Event_eq_dec : EqDecision Event.
Proof. solve_decision. Defined.
Global Instance Position_eq_dec : EqDecision Position.
Proof. solve_decision. Defined.
Global Instance OriginData_eq_dec : EqDecision OriginData.
Proof. solve_decision. Defined.
Global Instance Origin_eq_dec : EqDecision Origin.
Proof. solve_decision. Defined.
Global Instance agency_ref_eq_dec : EqDecision agency_ref.
Proof. solve_decision. Defined.
Global Instance MeasureKey_eq_dec : EqDecision MeasureKey.
Proof. solve_decision. Defined.
Global Instance MagnitudeMeasure_eq_dec : EqDecision MagnitudeMeasure.
Proof. solve_decision. Defined.

(** The objects a session holds, per mapped class, oldest first. *)
Record tables : Type := {
  tbl_eventsources : list EventSource;
  tbl_agencies : list Agency;
  tbl_events : list Event;
  tbl_origins : list Origin;
  tbl_measures : list MagnitudeMeasure
}.

Global Instance tables_eq_dec : EqDecision tables.
Proof. solve_decision. Defined.

Definition no_tables : tables :=
  {| tbl_eventsources := []; tbl_agencies := []; tbl_events := [];
     tbl_origins := []; tbl_measures := [] |}.

(** What is asked of the persistence collaborator, for the trace. *)
Inductive query : Type :=
| QEventSource (name : string)
| QAgency (k : NaturalKey)
| QEvent (k : NaturalKey)
| QOrigin (k : NaturalKey)
| QMagnitudeMeasure (k : MeasureKey).

Inductive call : Type :=
| GetOrCreate (q : query)
| Commit
| Rollback.

Global Instance query_eq_dec : EqDecision query.
Proof. solve_decision. Defined.
Global Instance call_eq_dec : EqDecision call.
Proof. solve_decision. Defined.

(** Modelled from the spec: the session and its engine are not part of
    the sources. The catalogue is the collaborator of the spec's
    section 6: every find-or-create is provisional ([working]) until a
    commit makes it durable ([stored]); a rollback discards what is
    provisional. [violates] is the collaborator's verdict on a
    find-or-create, given everything asked of it so far: [true] when it
    reports an integrity or uniqueness violation. [calls] is the
    trace of what was asked, latest last. *)
Record CatalogueDatabase : Type := {
  working : tables;
  stored : tables;
  calls : list call;
  violates : list call → bool
}.

Definition log (c : call) (cat : CatalogueDatabase) : CatalogueDatabase :=
  {| working := working cat; stored := stored cat;
     calls := calls cat ++ [c]; violates := violates cat |}.

Definition set_working (t : tables) (cat : CatalogueDatabase)
  : CatalogueDatabase :=
  {| working := t; stored := stored cat;
     calls := calls cat; violates := violates cat |}.

(** [session.commit()] *)
Definition commit (cat : CatalogueDatabase) : CatalogueDatabase :=
  {| working := working cat; stored := working cat;
     calls := calls cat ++ [Commit]; violates := violates cat |}.

(** [session.rollback()] *)
Definition rollback (cat : CatalogueDatabase) : CatalogueDatabase :=
  {| working := stored cat; stored := stored cat;
     calls := calls cat ++ [Rollback]; violates := violates cat |}.

(** A mapped class, as [get_or_create] uses it: where its objects
    live, how [filter_by] selects them by the [query_args], and how
    [class_object] builds one from the [creation_args] once these
    have been updated with the [query_args]. *)
Record model_class (O Q C : Type) : Type := {
  table : tables → list O;
  set_table : list O → tables → tables;
  filter_by : Q → O → bool;
  construct : Q → C → O;
  describe : Q → query
}.
Global Arguments table {O Q C} _ _.
Global Arguments set_table {O Q C} _ _ _.
Global Arguments filter_by {O Q C} _ _ _.
Global Arguments construct {O Q C} _ _ _.
Global Arguments describe {O Q C} _ _.

(** [CatalogueDatabase.get_or_create(class_object, query_args,
    creation_args)] *)
Definition get_or_create {O Q C} (class_object : model_class O Q C)
    (query_args : Q) (creation_args : C) (cat : CatalogueDatabase)
  : CatalogueDatabase * res (O * bool) :=
  let cat := log (GetOrCreate (describe class_object query_args)) cat in
  if violates cat (calls cat) then (cat, Err IntegrityError)
  else
    let queryset :=
      List.filter (filter_by class_object query_args)
        (table class_object (working cat)) in
    match queryset with
    | found :: _ => (cat, Ok (found, false))
    | [] =>
        let obj := construct class_object query_args creation_args in
        let t := set_table class_object
                   (table class_object (working cat) ++ [obj])
                   (working cat) in
        (set_working t cat, Ok (obj, true))
    end.

Definition EventSourceC : model_class EventSource string unit :=
  {| table := tbl_eventsources;
     set_table := λ l t,
       {| tbl_eventsources := l; tbl_agencies := tbl_agencies t;
          tbl_events := tbl_events t; tbl_origins := tbl_origins t;
          tbl_measures := tbl_measures t |};
     filter_by := λ name o, bool_decide (es_name o = name);
     construct := λ name _, {| es_name := name |};
     describe := QEventSource |}.

Definition AgencyC : model_class Agency NaturalKey unit :=
  {| table := tbl_agencies;
     set_table := λ l t,
       {| tbl_eventsources := tbl_eventsources t; tbl_agencies := l;
          tbl_events := tbl_events t; tbl_origins := tbl_origins t;
          tbl_measures := tbl_measures t |};
     filter_by := λ k o, bool_decide (o = k);
     construct := λ k _, k;
     describe := QAgency |}.

Definition EventC : model_class Event NaturalKey unit :=
  {| table := tbl_events;
     set_table := λ l t,
       {| tbl_eventsources := tbl_eventsources t;
          tbl_agencies := tbl_agencies t;
          tbl_events := l; tbl_origins := tbl_origins t;
          tbl_measures := tbl_measures t |};
     filter_by := λ k o, bool_decide (ev_key o = k);
     construct := λ k _, {| ev_key := k; ev_name := None |};
     describe := QEvent |}.

Definition OriginC : model_class Origin NaturalKey OriginData :=
  {| table := tbl_origins;
     set_table := λ l t,
       {| tbl_eventsources := tbl_eventsources t;
          tbl_agencies := tbl_agencies t;
          tbl_events := tbl_events t; tbl_origins := l;
          tbl_measures := tbl_measures t |};
     filter_by := λ k o, bool_decide (or_key o = k);
     construct := λ k d, {| or_key := k; or_data := d |};
     describe := QOrigin |}.

Definition MagnitudeMeasureC
  : model_class MagnitudeMeasure MeasureKey (value * value) :=
  {| table := tbl_measures;
     set_table := λ l t,
       {| tbl_eventsources := tbl_eventsources t;
          tbl_agencies := tbl_agencies t;
          tbl_events := tbl_events t; tbl_origins := tbl_origins t;
          tbl_measures := l |};
     filter_by := λ k o, bool_decide (mm_key o = k);
     construct := λ k c,
       {| mm_key := k; mm_value := c.1; mm_standard_error := c.2 |};
     describe := QMagnitudeMeasure |}.

(** [event.name = name] on the stored event with key [k]. *)
Definition rename_event (k : NaturalKey) (name : option string)
    (cat : CatalogueDatabase) : CatalogueDatabase :=
  let rename := λ e : Event,
    if bool_decide (ev_key e = k)
    then {| ev_key := ev_key e; ev_name := name |} else e in
  set_working
    (set_table EventC (rename <$> tbl_events (working cat)) (working cat))
    cat.

End Models.

(** ** [eqcatalogue/importers/isf_bulletin.py] *)

Module Isf.
Import Py Models.

Definition ANALYSIS_TYPES : gmap string string :=
  list_to_map [("a", "automatic"); ("m", "manual"); ("g", "guess")].

Definition LOCATION_METHODS : gmap string string :=
  list_to_map [("i", "inversion"); ("p", "pattern recognition");
               ("g", "ground truth"); ("o", "other")].

Definition EVENT_TYPES : gmap string string :=
  list_to_map
    [("uk", "unknown");
     ("de", "damaging earthquake ( Not standard IMS )");
     ("fe", "felt earthquake ( Not standard IMS )");
     ("ke", "known earthquake");
     ("se", "suspected earthquake");
     ("kr", "known rockburst");
     ("sr", "suspected rockburst");
     ("ki", "known induced event");
     ("si", "suspected induced event");
     ("km", "known mine expl.");
     ("sm", "suspected mine expl.");
     ("kh", "known chemical expl. ( Not standard IMS )");
     ("sh", "suspected chemical expl. ( Not standard IMS )");
     ("kx", "known experimental expl.");
     ("sx", "suspected experimental expl.");
     ("kn", "known nuclear expl.");
     ("sn", "suspected nuclear explosion");
     ("ls", "landslide")].

Definition UNKNOWN_EVENT_TYPE_DESCRIPTION : string := "unknown event type".

(** The line types, which act as the events of the state machine. *)
Inductive line_type : Type :=
| catalogue_header
| event_header
| origin_header
| origin_block
| measure_header
| measure_block
| measure_unknown_scale_block
| comment
| stop
| junk.

Global Instance line_type_eq_dec : EqDecision line_type.
Proof. solve_decision. Defined.

(** The dictionary [_process_metadata] builds. [stations] is
    overwritten by the measure states, with an integer from the fixed
    columns and with the matched text from the unknown-scale pattern. *)
Record Metadata : Type := {
  strike : option Z;
  phases : option Z;
  stations : value;
  distance_to_closest_station : option pyfloat;
  distance_to_furthest_station : option pyfloat;
  analysis_type : option string;
  location_method : option string;
  event_type : option string
}.

Definition set_stations (v : value) (m : Metadata) : Metadata :=
  {| strike := strike m; phases := phases m; stations := v;
     distance_to_closest_station := distance_to_closest_station m;
     distance_to_furthest_station := distance_to_furthest_station m;
     analysis_type := analysis_type m;
     location_method := location_method m;
     event_type := event_type m |}.

(** The one [StartState] object of an importer, [self._initial]. *)
Record StartState : Type := { ss_eventsource : option EventSource }.

(** The state objects. Every state but the start state is built
    afresh by [_get_next_state] and is referred to by [self._state]
    alone, so it is a value; [StartS] stands for the object
    [self._initial], whose attribute lives in the importer. The
    metadata dictionary an origin block builds is handed on by
    reference, and only ever reached through the current state. *)
Inductive state : Type :=
| StartS
| EventS (eventsource : EventSource) (event : option NaturalKey)
| OriginHeaderS (event : NaturalKey)
| OriginBlockS (event : NaturalKey) (agency : option Agency)
    (origin : option NaturalKey) (metadata : option Metadata)
| MeasureHeaderS (event : NaturalKey) (metadata : option Metadata)
| MeasureBlockS (event : NaturalKey) (metadata : option Metadata)
| MeasureUKScaleBlockS (event : NaturalKey) (metadata : option Metadata).

(** [dict(agencies=dict(), origins=dict())] *)
Record ParseContext : Type := {
  agencies : gmap string (Agency * bool);
  origins : gmap string NaturalKey
}.

Definition empty_context : ParseContext :=
  {| agencies := ∅; origins := ∅ |}.

(** Modelled from the spec: [BaseImporter] ([eqcatalogue/importers])
    is not part of the sources. Its class attributes name the buckets
    of the summary, one per entity kind, and [ERRORS], the key of the
    ordered list of recorded parse errors. *)
Inductive bucket : Type :=
| EVENT_SOURCE
| EVENT
| AGENCY
| ORIGIN
| MEASURE.

Global Instance bucket_eq_dec : EqDecision bucket.
Proof. solve_decision. Defined.

Definition bucket_to_nat (b : bucket) : nat :=
  match b with
  | EVENT_SOURCE => 0 | EVENT => 1 | AGENCY => 2 | ORIGIN => 3
  | MEASURE => 4
  end%nat.

Definition bucket_of_nat (n : nat) : option bucket :=
  match n with
  | 0 => Some EVENT_SOURCE | 1 => Some EVENT | 2 => Some AGENCY
  | 3 => Some ORIGIN | 4 => Some MEASURE | _ => None
  end%nat.

Global Instance bucket_countable : Countable bucket.
Proof.
  apply (inj_countable bucket_to_nat bucket_of_nat).
  intros []; reflexivity.
Defined.

(** Modelled from the spec: the summary [BaseImporter] initialises, a
    mapping from bucket to count together with the list under
    [ERRORS], empty at first. *)
Record Summary : Type := {
  counts : gmap bucket Z;
  ERRORS : list exn
}.

Definition empty_summary : Summary := {| counts := ∅; ERRORS := [] |}.

Record Importer : Type := {
  _catalogue : CatalogueDatabase;
  _summary : Summary;
  _initial : StartState;
  _state : state;
  _context : ParseContext
}.

Definition set_catalogue (c : CatalogueDatabase) (imp : Importer) :=
  {| _catalogue := c; _summary := _summary imp; _initial := _initial imp;
     _state := _state imp; _context := _context imp |}.
Definition set_summary (s : Summary) (imp : Importer) :=
  {| _catalogue := _catalogue imp; _summary := s;
     _initial := _initial imp;
     _state := _state imp; _context := _context imp |}.
Definition set_initial (i : StartState) (imp : Importer) :=
  {| _catalogue := _catalogue imp; _summary := _summary imp;
     _initial := i;
     _state := _state imp; _context := _context imp |}.
Definition set_state (s : state) (imp : Importer) :=
  {| _catalogue := _catalogue imp; _summary := _summary imp;
     _initial := _initial imp;
     _state := s; _context := _context imp |}.
Definition set_context (c : ParseContext) (imp : Importer) :=
  {| _catalogue := _catalogue imp; _summary := _summary imp;
     _initial := _initial imp;
     _state := _state imp; _context := c |}.

(** *** The monad of the importer's methods

    A method takes the importer to the importer it leaves behind and
    either a result or the exception it raised. *)
Definition M (A : Type) : Type := Importer → Importer * res A.

Definition ret {A} (a : A) : M A := λ imp, (imp, Ok a).
Definition raise {A} (e : exn) : M A := λ imp, (imp, Err e).
Definition mbind {A B} (m : M A) (f : A → M B) : M B :=
  λ imp,
    match m imp with
    | (imp', Ok a) => f a imp'
    | (imp', Err e) => (imp', Err e)
    end.
Definition lift {A} (r : res A) : M A := λ imp, (imp, r).
Definition get : M Importer := λ imp, (imp, Ok imp).
Definition modify (f : Importer → Importer) : M unit :=
  λ imp, (f imp, Ok tt).
(** A call into the catalogue. *)
Definition on_catalogue {A}
    (f : CatalogueDatabase → CatalogueDatabase * res A) : M A :=
  λ imp, let '(cat, r) := f (_catalogue imp) in (set_catalogue cat imp, r).

Declare Scope isf_scope.
Delimit Scope isf_scope with isf.
Notation "x <- m ;; k" := (mbind m (λ x, k))
  (at level 100, m at next level, right associativity) : isf_scope.
Notation "m ;; k" := (mbind m (λ _, k))
  (at level 100, right associativity) : isf_scope.
Local Open Scope isf_scope.

(** *** Field decoding helpers *)

(** [None if not s.strip() else conv(s)] *)
Definition unless_blank {A} (conv : string → res A) (s : string)
  : res (option A) :=
  if bool_decide (PyStr.strip s = "") then Ok None
  else bind (conv s) (λ a, Ok (Some a)).

(** [line[i]], with its [IndexError]. *)
Definition char_at (i : nat) (line : string) : res ascii :=
  match PyStr.index i line with
  | Some c => Ok c
  | None => Err IndexError
  end.

Definition is_f (c : ascii) : bool := bool_decide (c = "f"%char).

(** *** The patterns *)

Definition cat (l : list Re.regex) : Re.regex := foldr Re.Seq Re.Eps l.

(** [r'\s+'.join(fields)] *)
Fixpoint join_spaces (fields : list Re.regex) : Re.regex :=
  match fields with
  | [] => Re.Eps
  | [f] => f
  | f :: fs => Re.Seq f (Re.Seq (Re.Plus Re.space) (join_spaces fs))
  end.

(** [^Event\s+(?P<source_event_id>\w{0,9}) (?P<name>.{0,65})$] *)
Definition event_regexp : Re.regex :=
  cat [Re.Bol; Re.Lit "Event"; Re.Plus Re.space;
       Re.Group "source_event_id" (Re.Upto 9 Re.word);
       Re.Chr " ";
       Re.Group "name" (Re.Upto 65 Re.dot);
       Re.Eol].

Definition origin_fields : list Re.regex :=
  [Re.Lit "Date"; Re.Lit "Time"; Re.Lit "Err"; Re.Lit "RMS";
   Re.Lit "Latitude"; Re.Lit "Longitude"; Re.Lit "Smaj"; Re.Lit "Smin";
   Re.Lit "Az"; Re.Lit "Depth"; Re.Lit "Err"; Re.Lit "Ndef";
   Re.Seq (Re.Lit "Nst") (Re.Star (Re.Chr "a"));
   Re.Lit "Gap"; Re.Lit "mdist"; Re.Lit "Mdist"; Re.Lit "Qual";
   Re.Lit "Author"; Re.Lit "OrigID"].

Definition origin_regexp : Re.regex :=
  cat [Re.Bol; join_spaces origin_fields; Re.Eol].

Definition measure_fields : list Re.regex :=
  [Re.Lit "Magnitude"; Re.Lit "Err"; Re.Lit "Nsta"; Re.Lit "Author";
   Re.Lit "OrigID"].

Definition measure_regexp : Re.regex :=
  cat [Re.Bol; join_spaces measure_fields; Re.Eol].

(** [^\([^\)].+\)] *)
Definition comment_regexp : Re.regex :=
  cat [Re.Bol; Re.Chr "(";
       Re.Cls (λ c, negb (bool_decide (c = ")"%char)));
       Re.Plus Re.dot; Re.Chr ")"].

Definition decimal : Re.regex :=
  cat [Re.Plus Re.digit; Re.Chr "."; Re.Plus Re.digit].

(** [^(?P<val>-*[0-9]+\.[0-9]+)\s+(?P<error>[0-9]+\.[0-9]+)*\s+]
    [(?P<stations>[0-9]+)*\s+(?P<agency>[\w;]+)\s+(?P<origin>\w+)$] *)
Definition uk_scale_regexp : Re.regex :=
  cat [Re.Bol;
       Re.Group "val" (Re.Seq (Re.Star (Re.Chr "-")) decimal);
       Re.Plus Re.space;
       Re.Star (Re.Group "error" decimal);
       Re.Plus Re.space;
       Re.Star (Re.Group "stations" (Re.Plus Re.digit));
       Re.Plus Re.space;
       Re.Group "agency"
         (Re.Plus (Re.Cls (λ c, PyStr.is_word c
                                || bool_decide (c = ";"%char))));
       Re.Plus Re.space;
       Re.Group "origin" (Re.Plus Re.word);
       Re.Eol].

(** [EventState.match] *)
Definition EventState_match (line : string) : option Re.groups :=
  Re.rmatch event_regexp line.

(** [MeasureUKScaleBlockState.match] *)
Definition MeasureUKScaleBlockState_match (line : string)
  : option Re.groups :=
  Re.rmatch uk_scale_regexp line.

(** *** The states *)

(** [is_start]: false for every state but the start state, which can
    start a catalogue as long as it has no event source. *)
Definition is_start (initial : StartState) (st : state) : bool :=
  match st with
  | StartS => bool_decide (ss_eventsource initial = None)
  | _ => false
  end.

(** [_get_next_state] of each state class; [None] when the method
    falls off its end. *)
Definition _get_next_state (initial : StartState) (st : state)
    (lt : line_type) : option state :=
  match st with
  | StartS =>
      match lt, ss_eventsource initial with
      | catalogue_header, _ => Some StartS
      | event_header, Some es => Some (EventS es None)
      | _, _ => None
      end
  | EventS _ event =>
      match lt, event with
      | origin_header, Some ev => Some (OriginHeaderS ev)
      | _, _ => None
      end
  | OriginHeaderS event =>
      match lt with
      | origin_block => Some (OriginBlockS event None None None)
      | _ => None
      end
  | MeasureHeaderS event metadata =>
      match lt with
      | measure_block => Some (MeasureBlockS event metadata)
      | measure_unknown_scale_block =>
          Some (MeasureUKScaleBlockS event metadata)
      | _ => None
      end
  | OriginBlockS event _ _ metadata =>
      match lt with
      | measure_header => Some (MeasureHeaderS event metadata)
      | origin_block => Some (OriginBlockS event None None None)
      | event_header => Some (EventS (eventsource event) None)
      | _ => None
      end
  | MeasureBlockS event metadata
  | MeasureUKScaleBlockS event metadata =>
      match lt with
      | event_header => Some (EventS (eventsource event) None)
      | measure_block => Some (MeasureBlockS event metadata)
      | measure_unknown_scale_block =>
          Some (MeasureUKScaleBlockS event metadata)
      | _ => None
      end
  end.

(** [BaseState.transition_rule], called on [self._state]. *)
Definition transition_rule (lt : line_type) : M state :=
  imp <- get ;;
  match _get_next_state (_initial imp) (_state imp) lt with
  | None => raise UnexpectedLine
  | Some next_state => ret next_state
  end.

(** What [process_line] returns: the items of a dictionary from
    bucket to count. *)
Definition output : Type := list (bucket * Z).

Definition one_if (created : bool) : Z := if created then 1 else 0.

(** [StartState.process_line], with [_save_eventsource] *)
Definition StartState_process_line (line : string) : M output :=
  r <- on_catalogue (get_or_create EventSourceC line tt) ;;
  let '(es, created) := r in
  modify (set_initial {| ss_eventsource := Some es |}) ;;
  ret [(EVENT_SOURCE, one_if created)].

(** [EventState._save_event] *)
Definition _save_event (eventsource : EventSource)
    (source_event_id : string) (name : option string) : M bool :=
  r <- on_catalogue
         (get_or_create EventC
            {| source_key := source_event_id;
               eventsource := eventsource |} tt) ;;
  let '(event, created) := r in
  modify (set_state (EventS eventsource (Some (ev_key event)))) ;;
  (if bool_decide (ev_name event ≠ name)
   then modify (λ imp,
          set_catalogue (rename_event (ev_key event) name (_catalogue imp))
            imp)
   else ret tt) ;;
  ret created.

(** [EventState.process_line]: both groups take part in every match
    of the pattern. *)
Definition EventState_process_line (eventsource : EventSource)
    (line : string) : M output :=
  match EventState_match line with
  | None => raise AttributeError
  | Some result =>
      created <- _save_event eventsource
                   (default "" (result !! "source_event_id"))
                   (result !! "name") ;;
      ret [(EVENT, one_if created)]
  end.

(** [OriginBlockState._save_agency]: the pair [get_or_create] returns
    is stored in the context, and returned, as it is. *)
Definition _save_agency (event : NaturalKey) (author : string)
  : M (Agency * bool) :=
  agency <- on_catalogue
              (get_or_create AgencyC
                 {| source_key := author;
                    eventsource := eventsource event |} tt) ;;
  modify (λ imp,
    set_context
      {| agencies := <[author := agency]> (agencies (_context imp));
         origins := origins (_context imp) |} imp) ;;
  ret agency.

Definition set_origin_block (agency : option Agency)
    (origin : option NaturalKey) (metadata : option Metadata)
    (imp : Importer) : Importer :=
  match _state imp with
  | OriginBlockS event a o m =>
      set_state
        (OriginBlockS event
           (match agency with Some _ => agency | None => a end)
           (match origin with Some _ => origin | None => o end)
           (match metadata with Some _ => metadata | None => m end))
        imp
  | _ => imp
  end.

(** [OriginBlockState._process_agency] *)
Definition _process_agency (event : NaturalKey) (line : string)
  : M bool :=
  let author := PyStr.strip (PyStr.slice 118 127 line) in
  r <- _save_agency event author ;;
  let '(agency, agency_created) := r in
  modify (set_origin_block (Some agency) None None) ;;
  ret agency_created.

(** [OriginBlockState._process_time] *)
Definition _process_time (line : string) : res datetime :=
  let datetime_components :=
    PyStr.split "/" (PyStr.slice 0 10 line)
    ++ PyStr.split ":" (PyStr.slice 11 19 line) in
  let datetime_components :=
    if bool_decide (PyStr.strip (PyStr.slice 20 22 line) ≠ "")
    then datetime_components ++ [PyStr.slice 20 22 line]
    else datetime_components in
  bind (ints datetime_components) make_datetime.

(** [OriginBlockState._save_origin] *)
Definition _save_origin (event : NaturalKey) (source_key : string)
    (kwargs : OriginData) : M NaturalKey :=
  r <- on_catalogue
         (get_or_create OriginC
            {| source_key := source_key;
               eventsource := eventsource event |} kwargs) ;;
  let origin := or_key r.1 in
  modify (λ imp,
    set_context
      {| agencies := agencies (_context imp);
         origins := <[source_key := origin]> (origins (_context imp)) |}
      imp) ;;
  ret origin.

(** The decoding half of [_process_origin], up to the call of
    [_save_origin]: the fields, in the order the method evaluates
    them. *)
Definition decode_origin (line : string) : res OriginData :=
  bind (_process_time line) (λ time,
  bind (char_at 22 line) (λ c22,
  bind (if is_f c22 then Ok None
        else unless_blank float (PyStr.slice 24 29 line)) (λ time_error,
  bind (unless_blank float (PyStr.slice 30 35 line)) (λ time_rms,
  bind (float (PyStr.slice 36 44 line)) (λ lat,
  bind (float (PyStr.slice 45 54 line)) (λ lng,
  let position := position_from_latlng lat lng in
  bind (char_at 54 line) (λ c54,
  let fixed_position := is_f c54 in
  let errors := (PyStr.strip (PyStr.slice 55 60 line),
                 PyStr.strip (PyStr.slice 61 66 line)) in
  bind (if fixed_position || bool_decide (errors.1 = "") then Ok None
        else bind (float errors.1) (λ f, Ok (Some f)))
    (λ semi_major_90error,
  bind (if fixed_position || bool_decide (errors.2 = "") then Ok None
        else bind (float errors.2) (λ f, Ok (Some f)))
    (λ semi_minor_90error,
  bind (unless_blank int (PyStr.slice 93 96 line)) (λ azimuth_error,
  bind (unless_blank float (PyStr.slice 71 76 line)) (λ depth,
  bind (bind (char_at 76 line) (λ c76,
          if is_f c76
             || bool_decide (PyStr.strip (PyStr.slice 78 82 line) = "")
          then Ok None
          else bind (float (PyStr.slice 78 82 line)) (λ f, Ok (Some f))))
    (λ depth_error,
  Ok {| time := time; time_error := time_error; time_rms := time_rms;
        position := position;
        semi_major_90error := semi_major_90error;
        semi_minor_90error := semi_minor_90error;
        depth := depth; depth_error := depth_error;
        azimuth_error := azimuth_error |})))))))))))).

(** [OriginBlockState._process_origin]: whatever [_save_origin]
    found or created, the method returns [True]. *)
Definition _process_origin (event : NaturalKey) (line : string)
  : M bool :=
  kwargs <- lift (decode_origin line) ;;
  origin <- _save_origin event
              (PyStr.strip (PyStr.slice 128 136 line)) kwargs ;;
  modify (set_origin_block None (Some origin) None) ;;
  ret true.

(** [d[key]] of a dictionary of strings, with its [KeyError]. *)
Definition getitem (d : gmap string string) (key : string)
  : res string :=
  match d !! key with
  | Some v => Ok v
  | None => Err KeyError
  end.

(** [line[i].strip()] looked up in [d] unless blank. *)
Definition coded (d : gmap string string) (i : nat) (line : string)
  : res (option string) :=
  bind (char_at i line) (λ c,
    let code := PyStr.strip (String c EmptyString) in
    if bool_decide (code = "") then Ok None
    else bind (getitem d code) (λ v, Ok (Some v))).

(** The dictionary [_process_metadata] computes. *)
Definition decode_metadata (line : string) : res Metadata :=
  bind (unless_blank int (PyStr.slice 67 70 line)) (λ strike,
  bind (unless_blank int (PyStr.slice 83 87 line)) (λ phases,
  let stations_string := PyStr.strip (PyStr.slice 88 92 line) in
  bind (if bool_decide (stations_string = "") then Ok VNone
        else bind (int stations_string) (λ z, Ok (VInt z))) (λ stations,
  bind (unless_blank float (PyStr.slice 97 103 line)) (λ dist1,
  bind (unless_blank float (PyStr.slice 104 110 line)) (λ dist2,
  bind (coded ANALYSIS_TYPES 111 line) (λ analysis_type,
  bind (coded LOCATION_METHODS 113 line) (λ location_method,
  let event_type := PyStr.strip (PyStr.slice 115 117 line) in
  let event_type :=
    if bool_decide (event_type = "") then None
    else Some (default UNKNOWN_EVENT_TYPE_DESCRIPTION
                 (EVENT_TYPES !! event_type)) in
  Ok {| strike := strike; phases := phases; stations := stations;
        distance_to_closest_station := dist1;
        distance_to_furthest_station := dist2;
        analysis_type := analysis_type;
        location_method := location_method;
        event_type := event_type |}))))))).

(** [OriginBlockState._process_metadata] *)
Definition _process_metadata (line : string) : M unit :=
  metadata <- lift (decode_metadata line) ;;
  modify (set_origin_block None None (Some metadata)).

(** [OriginBlockState.process_line] *)
Definition OriginBlockState_process_line (event : NaturalKey)
    (line : string) : M output :=
  agency_created <- _process_agency event line ;;
  origin_created <- _process_origin event line ;;
  _process_metadata line ;;
  ret [(AGENCY, one_if agency_created); (ORIGIN, one_if origin_created)].

(** [self.metadata['stations'] = stations] on the current measure
    state; a state whose metadata is [None] cannot be assigned into. *)
Definition set_metadata_stations (stations : value) : M unit :=
  imp <- get ;;
  match _state imp with
  | MeasureBlockS event (Some m) =>
      modify (set_state (MeasureBlockS event (Some (set_stations stations m))))
  | MeasureUKScaleBlockS event (Some m) =>
      modify (set_state
                (MeasureUKScaleBlockS event (Some (set_stations stations m))))
  | _ => raise TypeError
  end.

(** [MeasureBlockState._save_measure]: the default handed to
    [dict.get] is computed before the dictionary is asked, and the
    dictionary is asked for the constant ['agency_name']. *)
Definition _save_measure (event : NaturalKey) (agency_name : string)
    (origin_source_key : string) (scale : string)
    (value standard_error : value) : M bool :=
  r <- on_catalogue
         (get_or_create AgencyC
            {| source_key := agency_name;
               eventsource := eventsource event |} tt) ;;
  imp <- get ;;
  let agency :=
    match agencies (_context imp) !! "agency_name" with
    | Some (a, created) => AgencyPair a created
    | None => AgencyObj r.1
    end in
  match origins (_context imp) !! origin_source_key with
  | None => raise KeyError
  | Some origin =>
      m <- on_catalogue
             (get_or_create MagnitudeMeasureC
                {| mk_event := event; mk_origin := origin;
                   mk_agency := agency; mk_scale := scale |}
                (value, standard_error)) ;;
      ret m.2
  end.

(** [MeasureBlockState.process_line] *)
Definition MeasureBlockState_process_line (event : NaturalKey)
    (line : string) : M output :=
  let scale := PyStr.strip (PyStr.slice 0 5 line) in
  c5 <- lift (char_at 5 line) ;;
  let minmax_indicator := PyStr.strip (String c5 EmptyString) in
  (if bool_decide (minmax_indicator = "") then ret tt
   else raise AssertionError) ;;
  value <- lift (float (PyStr.slice 6 11 line)) ;;
  standard_magnitude_error <-
    lift (unless_blank float (PyStr.slice 11 14 line)) ;;
  stations <- lift (unless_blank int (PyStr.slice 15 19 line)) ;;
  let agency_name := PyStr.strip (PyStr.slice 19 29 line) in
  let origin_source_key := PyStr.strip (PyStr.slice 30 38 line) in
  created <- _save_measure event agency_name origin_source_key scale
               (VFloat value)
               (from_option VFloat VNone standard_magnitude_error) ;;
  set_metadata_stations (from_option VInt VNone stations) ;;
  ret [(MEASURE, one_if created)].

(** [MeasureUKScaleBlockState.process_line]: the matched texts are
    handed on as they are. *)
Definition MeasureUKScaleBlockState_process_line (event : NaturalKey)
    (line : string) : M output :=
  let scale := "Muk" in
  match MeasureUKScaleBlockState_match line with
  | None => raise AttributeError
  | Some data =>
      created <- _save_measure event
                   (default "" (data !! "agency"))
                   (default "" (data !! "origin"))
                   scale
                   (from_option VStr VNone (data !! "val"))
                   (from_option VStr VNone (data !! "error")) ;;
      set_metadata_stations (from_option VStr VNone (data !! "stations")) ;;
      ret [(MEASURE, one_if created)]
  end.

(** [process_line] of the current state, by its class. The two header
    states inherit [BaseState.process_line]. *)
Definition process_line (line : string) : M output :=
  imp <- get ;;
  match _state imp with
  | StartS => StartState_process_line line
  | EventS eventsource _ => EventState_process_line eventsource line
  | OriginHeaderS _ => ret []
  | MeasureHeaderS _ _ => ret []
  | OriginBlockS event _ _ _ => OriginBlockState_process_line event line
  | MeasureBlockS event _ => MeasureBlockState_process_line event line
  | MeasureUKScaleBlockS event _ =>
      MeasureUKScaleBlockState_process_line event line
  end.

(** *** The importer *)

Definition matches (r : Re.regex) (line : string) : bool :=
  bool_decide (is_Some (Re.rmatch r line)).

(** [Importer._detect_line_type] *)
Definition _detect_line_type (imp : Importer) (line : string)
  : line_type :=
  if bool_decide (line = "ISC Bulletin") then catalogue_header
  else if bool_decide (line = "STOP") then stop
  else if matches comment_regexp line
          || bool_decide (PyStr.strip line = "") then comment
  else if matches origin_regexp line then origin_header
  else if matches measure_regexp line then measure_header
  else if bool_decide (is_Some (EventState_match line)) then event_header
  else if bool_decide (PyStr.len line = 136%nat)
          && negb (is_start (_initial imp) (_state imp)) then origin_block
  else if bool_decide (PyStr.len line = 38%nat)
          && negb (is_start (_initial imp) (_state imp)) then measure_block
  else if bool_decide (is_Some (MeasureUKScaleBlockState_match line))
  then measure_unknown_scale_block
  else junk.

(** [Importer._transition]: [setup] hands the state the catalogue and
    the context, which here it reaches through the importer. *)
Definition _transition (next_state : state) : M unit :=
  modify (set_state next_state).

(** [Importer.update_summary] *)
Definition update_summary (out : output) : M unit :=
  modify (λ imp,
    set_summary
      {| counts :=
           foldl (λ c item, <[item.1 := default 0 (c !! item.1) + item.2]> c)
             (counts (_summary imp)) out;
         ERRORS := ERRORS (_summary imp) |} imp).

(** [Importer._parsing_error]: a rollback, then the exception, which
    is returned and not raised. *)
Definition _parsing_error (line_num : nat) : M exn :=
  on_catalogue (λ cat, (rollback cat, Ok tt)) ;;
  ret (ParsingFailure line_num).

(** [Importer.__init__], on a catalogue. *)
Definition init (cat : CatalogueDatabase) : Importer :=
  {| _catalogue := cat; _summary := empty_summary;
     _initial := {| ss_eventsource := None |};
     _state := StartS; _context := empty_context |}.

(** How one turn of the loop of [store] ends. *)
Inductive turn : Type :=
| Continue
| Break.

(** The [try] block of [store]. *)
Definition try_line (line_type : line_type) (line : string) : M unit :=
  next_state <- transition_rule line_type ;;
  _transition next_state ;;
  state_output <- process_line line ;;
  update_summary state_output.

(** One turn of the loop of [store], for the line numbered
    [line_num]; [on_line_read] is left at its default, [None]. *)
Definition store_line (allow_junk : bool) (line_num : nat)
    (line : string) : M turn :=
  let line := PyStr.strip line in
  imp <- get ;;
  let line_type := _detect_line_type imp line in
  match line_type with
  | comment => ret Continue
  | stop => ret Break
  | _ =>
      λ imp,
        match try_line line_type line imp with
        | (imp', Ok _) => (imp', Ok Continue)
        | (imp', Err IntegrityError) =>
            (e <- _parsing_error line_num ;; raise e) imp'
        | (imp', Err UnexpectedLine) | (imp', Err ValueError) =>
            let current := _state imp' in
            if is_start (_initial imp') current
               && bool_decide (line_type = junk) && allow_junk
            then (imp', Ok Continue)
            else
              (e <- _parsing_error line_num ;;
               modify (λ imp,
                 set_summary
                   {| counts := counts (_summary imp);
                      ERRORS := ERRORS (_summary imp) ++ [e] |} imp) ;;
               modify (λ imp, set_state StartS imp) ;;
               ret Continue) imp'
        | (imp', Err e) => (imp', Err e)
        end
  end.

(** The loop of [store] over the lines that remain, the first of them
    numbered [line_num]. *)
Fixpoint store_loop (allow_junk : bool) (line_num : nat)
    (stream : list string) : M unit :=
  match stream with
  | [] => ret tt
  | line :: rest =>
      t <- store_line allow_junk line_num line ;;
      match t with
      | Continue => store_loop allow_junk (S line_num) rest
      | Break => ret tt
      end
  end.

(** [Importer.store] *)
Definition store (allow_junk : bool) (stream : list string) : M Summary :=
  store_loop allow_junk 1 stream ;;
  on_catalogue (λ cat, (commit cat, Ok tt)) ;;
  imp <- get ;;
  ret (_summary imp).

End Isf.

(** ** Notions the statements are phrased with *)

Import Py Models Isf.
Local Open Scope isf_scope.

(** The lines are read through, each turn of the loop ending in
    [continue]: the importer they leave, if so. *)
Fixpoint advance (allow_junk : bool) (line_num : nat)
    (lines : list string) (imp : Importer) : option Importer :=
  match lines with
  | [] => Some imp
  | line :: rest =>
      match store_line allow_junk line_num line imp with
      | (imp', Ok Continue) => advance allow_junk (S line_num) rest imp'
      | _ => None
      end
  end.

(** Up to [update_summary], the [try] block only decodes. *)
Definition try_decode (lt : line_type) (line : string) : M output :=
  next_state <- transition_rule lt ;;
  _transition next_state ;;
  process_line line.

(** The importer once the counts of a decoded line are merged. *)
Definition counted (out : output) (imp : Importer) : Importer :=
  (update_summary out imp).1.

(** The importer once a line is given up: the transaction rolled back,
    the parse error appended, the state the initial one again. *)
Definition recovered (line_num : nat) (imp : Importer) : Importer :=
  let imp := set_catalogue (rollback (_catalogue imp)) imp in
  let imp :=
    set_summary
      {| counts := counts (_summary imp);
         ERRORS := ERRORS (_summary imp) ++ [ParsingFailure line_num] |}
      imp in
  set_state StartS imp.

(** The importer once a fatal conflict is met: the transaction rolled
    back, and nothing else. *)
Definition aborted (imp : Importer) : Importer :=
  set_catalogue (rollback (_catalogue imp)) imp.

(** The one start-state object is left as it is. *)
Definition keeps_initial (imp imp' : Importer) : Prop :=
  _initial imp' = _initial imp.

(** The event source of the start state has been established. *)
Definition established (imp : Importer) : Prop :=
  is_Some (ss_eventsource (_initial imp)).

Definition is_get_or_create (c : call) : Prop :=
  match c with GetOrCreate _ => True | _ => False end.

(** What decoding a line may do to the importer: it asks the catalogue
    to find or create, adds to the two maps of the context, moves the
    state, may establish the event source; it leaves alone what is
    stored, the collaborator's verdicts and the summary. *)
Record decodes (imp imp' : Importer) : Prop := {
  dec_stored : stored (_catalogue imp') = stored (_catalogue imp);
  dec_violates : violates (_catalogue imp') = violates (_catalogue imp);
  dec_calls : ∃ cs, calls (_catalogue imp') = calls (_catalogue imp) ++ cs
                    ∧ Forall is_get_or_create cs;
  dec_agencies : dom (agencies (_context imp))
                 ⊆ dom (agencies (_context imp'));
  dec_origins : dom (origins (_context imp)) ⊆ dom (origins (_context imp'));
  dec_established : established imp → established imp';
  dec_summary : _summary imp' = _summary imp
}.

(** What a turn of the loop may do on top of that: roll back, count,
    and record a parse error. It never commits. *)
Record loops (imp imp' : Importer) : Prop := {
  loop_stored : stored (_catalogue imp') = stored (_catalogue imp);
  loop_violates : violates (_catalogue imp') = violates (_catalogue imp);
  loop_calls : ∃ cs, calls (_catalogue imp') = calls (_catalogue imp) ++ cs
                     ∧ Commit ∉ cs;
  loop_agencies : dom (agencies (_context imp))
                  ⊆ dom (agencies (_context imp'));
  loop_origins : dom (origins (_context imp))
                 ⊆ dom (origins (_context imp'));
  loop_established : established imp → established imp';
  loop_errors : ERRORS (_summary imp) `prefix_of` ERRORS (_summary imp')
}.

(** A method keeps a relation between the importer it is called on and
    the one it leaves, however it ends. *)
Definition preserves {A} (R : Importer → Importer → Prop) (m : M A) : Prop :=
  ∀ imp, R imp (m imp).1.

(** The lines the comment pattern matches: an opening parenthesis, a
    character that is not a closing one, at least one more character,
    and a closing parenthesis, with no newline between the second
    character and that parenthesis. *)
Fixpoint no_newline (s : string) : Prop :=
  match s with
  | EmptyString => True
  | String c s' => c ≠ "010"%char ∧ no_newline s'
  end.

Definition comment_shape (line : string) : Prop :=
  ∃ c d body rest,
    line = String "(" (String c (String d (body +:+ String ")" rest)))
    ∧ c ≠ ")"%char ∧ no_newline (String d body).

(** The first thing a method asks of the catalogue. *)
Definition first_asks {A} (c : call) (m : M A) : Prop :=
  ∀ imp, ∃ cs,
    calls (_catalogue (m imp).1) = calls (_catalogue imp) ++ c :: cs.

(** The columns of a measure line that are decoded before the measure
    is saved can all be decoded. *)
Definition measure_columns_decode (line : string) : Prop :=
  ∃ c5 value standard_error stations,
    char_at 5 line = Ok c5
    ∧ PyStr.strip (String c5 "") = ""
    ∧ float (PyStr.slice 6 11 line) = Ok value
    ∧ unless_blank float (PyStr.slice 11 14 line) = Ok standard_error
    ∧ unless_blank int (PyStr.slice 15 19 line) = Ok stations.

(** The comment rule in the words of the specification: the line opens
    with a parenthesis that is not followed by a closing one. *)
Definition opens_unclosed (line : string) : Prop :=
  ∃ c rest, line = String "(" (String c rest) ∧ c ≠ ")"%char.

(** ** A sample bulletin *)

Module Sample.

Definition origin_header_line : string :=
  "   Date       Time        Err   RMS Latitude Longitude  Smaj  Smin  Az Depth   Err Ndef Nsta Gap  mdist  Mdist Qual   Author      OrigID".

Definition measure_header_line : string :=
  "Magnitude  Err Nsta Author      OrigID".

Definition origin1 : string :=
  "2010/04/01 13:54:39.62   0.22 0.710  40.0557  142.2639   7.8   4.3  83  46.0  1.68  165  112 110   0.00  86.85 m i uk NEIC      14342462".

Definition measure1 : string := "mb     4.3 0.2   15 NEIC      14342462".

Definition origin2 : string :=
  "2011/03/11 05:46:23.00   0.30 1.100  38.2970  142.3730   8.1   6.0  95  29.0  2.10  300  250  40   1.00  99.00 a p ke ISC       15574716".

Definition measure2 : string := "MS     8.9 0.1   99 ISC       15574716".

(** The first measure line with a min/max indicator in column 5. *)
Definition measure1_minmax : string :=
  "mb   < 4.3 0.2   15 NEIC      14342462".

Definition block1 : list string :=
  ["ISC Bulletin"; "Event 14342462 Near east coast of Honshu";
   origin_header_line; origin1; ""; measure_header_line; measure1].

Definition block2 : list string :=
  ["ISC Bulletin"; "Event 15574716 Near east coast of Honshu";
   origin_header_line; origin2; ""; measure_header_line; measure2].

(** The first origin line under the origin identifier [OID001], and
    the unknown-scale measure line of the specification. *)
Definition origin_oid : string :=
  "2010/04/01 13:54:39.62   0.22 0.710  40.0557  142.2639   7.8   4.3  83  46.0  1.68  165  112 110   0.00  86.85 m i uk NEIC        OID001".

Definition uk_measure : string := "5.20 0.30 12 XYZ;ABC OID001".

Definition uk_block : list string :=
  ["ISC Bulletin"; "Event 14342462 Near east coast of Honshu";
   origin_header_line; origin_oid; measure_header_line].

(** A measure line that refers to an origin no origin block gave. *)
Definition measure_unknown_origin : string :=
  "mb     4.3 0.2   15 NEIC      99999999".

Definition invalid_line : string := "no such record".

(** An empty catalogue whose collaborator never reports a conflict. *)
Definition empty_catalogue : CatalogueDatabase :=
  {| working := no_tables; stored := no_tables; calls := [];
     violates := λ _, false |}.

(** The same, reporting a conflict on the [n]-th request made of
    it. *)
Definition conflict_at (n : nat) : CatalogueDatabase :=
  {| working := no_tables; stored := no_tables; calls := [];
     violates := λ cs, bool_decide (length cs = n) |}.

Definition isc : EventSource := {| es_name := "ISC Bulletin" |}.

End Sample.

(** ** Further notions *)

(** A mapped class is keyed by [key] when [filter_by] selects the
    objects whose key is the one asked for, the constructor builds an
    object with the key it is given, and its table can be read back. *)
Record keyed {O Q C} `{EqDecision Q} (cls : model_class O Q C)
    (key : O → Q) : Prop := {
  keyed_filter : ∀ q o, filter_by cls q o = bool_decide (key o = q);
  keyed_construct : ∀ q c, key (construct cls q c) = q;
  keyed_table : ∀ l t, table cls (set_table cls l t) = l
}.

(** No two objects of a table share their natural key. *)
Definition unique_keys (t : tables) : Prop :=
  NoDup (es_name <$> tbl_eventsources t)
  ∧ NoDup (tbl_agencies t)
  ∧ NoDup (ev_key <$> tbl_events t)
  ∧ NoDup (or_key <$> tbl_origins t)
  ∧ NoDup (mm_key <$> tbl_measures t).

(** Both what the catalogue holds provisionally and what it has stored
    have unique natural keys. *)
Definition catalogue_unique (cat : CatalogueDatabase) : Prop :=
  unique_keys (working cat) ∧ unique_keys (stored cat).

(** A method keeps the natural keys of the catalogue unique. *)
Definition keeps_unique (imp imp' : Importer) : Prop :=
  catalogue_unique (_catalogue imp) → catalogue_unique (_catalogue imp').

(** The exceptions a method may end in, with the importer it leaves
    then, satisfy [P]. *)
Definition raises_only {A} (P : Importer → exn → Prop) (m : M A) : Prop :=
  ∀ imp imp' e, m imp = (imp', Err e) → P imp' e.

Definition fails_only {A} (P : exn → Prop) (r : res A) : Prop :=
  ∀ e, r = Err e → P e.

(** The last thing asked of the catalogue was met with a conflict. *)
Definition conflict_reported (imp : Importer) : Prop :=
  violates (_catalogue imp) (calls (_catalogue imp)) = true.

(** What decoding a line may raise: one of these exceptions, an
    integrity error only right after the collaborator reported a
    conflict. *)
Definition decode_failure (imp : Importer) (e : exn) : Prop :=
  e ∈ [UnexpectedLine; ValueError; IntegrityError; AssertionError; KeyError;
       TypeError; OverflowError]
  ∧ (e = IntegrityError → conflict_reported imp).

(** What a line type tells about the line it was detected on. *)
Definition line_type_sound (imp : Importer) (line : string)
    (lt : line_type) : Prop :=
  match lt with
  | catalogue_header => line = "ISC Bulletin"
  | stop => line = "STOP"
  | comment => PyStr.strip line = "" ∨ comment_shape line
  | origin_header => matches origin_regexp line = true
  | measure_header => matches measure_regexp line = true
  | event_header => is_Some (EventState_match line)
  | origin_block =>
      PyStr.len line = 136%nat
      ∧ is_start (_initial imp) (_state imp) = false
  | measure_block =>
      PyStr.len line = 38%nat
      ∧ is_start (_initial imp) (_state imp) = false
  | measure_unknown_scale_block =>
      is_Some (MeasureUKScaleBlockState_match line)
  | junk => True
  end.

(** What decoding the columns of a line may fail with, the catalogue
    apart. *)
Definition column_failure (e : exn) : Prop :=
  e ∈ [ValueError; KeyError; TypeError; OverflowError].

(** How many times the catalogue was asked to roll back. *)
Definition rollbacks (cs : list call) : nat :=
  length (List.filter (λ c, bool_decide (c = Rollback)) cs).

(** Whether a run ended in a parsing failure. *)
Definition ended_in_parsing_failure {A} (r : res A) : nat :=
  match r with
  | Err (ParsingFailure _) => 1
  | _ => 0
  end.

Module SampleMore.

(** The first origin line of the sample with its time, its position
    and its depth flagged as fixed, and its depth column blank. *)
Definition origin_fixed : string :=
  "2010/04/01 13:54:39.62f  0.22 0.710  40.0557  142.2639f  7.8   4.3  83      f 1.68  165  112 110   0.00  86.85 m i uk NEIC      14342462".

End SampleMore.

(** Every author the context knows has at most nine characters. *)
Definition short_authors (ctx : ParseContext) : Prop :=
  ∀ author, is_Some (agencies ctx !! author) →
            (String.length author ≤ 9)%nat.

(** Every measure of a table is keyed by an agency, none by a pair. *)
Definition keyed_by_agency (t : tables) : Prop :=
  Forall (λ m, ∃ a, mk_agency (mm_key m) = AgencyObj a) (tbl_measures t).

Definition plain_agencies (imp : Importer) : Prop :=
  short_authors (_context imp)
  ∧ keyed_by_agency (working (_catalogue imp))
  ∧ keyed_by_agency (stored (_catalogue imp)).

Definition keeps_plain (imp imp' : Importer) : Prop :=
  plain_agencies imp → plain_agencies imp'.

(** What an output adds to a bucket. *)
Definition added (b : bucket) (out : output) : Z :=
  foldr Z.add 0 (snd <$> List.filter (λ item, bool_decide (item.1 = b)) out).

(** The results a method may return satisfy [Q]. *)
Definition returns_only {A} (Q : A → Prop) (m : M A) : Prop :=
  ∀ imp imp' a, m imp = (imp', Ok a) → Q a.

(** An output names each bucket at most once, with a count of zero or
    one. *)
Definition unit_output (out : output) : Prop :=
  NoDup out.*1 ∧ Forall (λ item, 0 ≤ item.2 ≤ 1) out.

(** Every bucket of the summary counts between zero and [k]. *)
Definition counts_within (k : Z) (imp : Importer) : Prop :=
  ∀ b, 0 ≤ default 0 (counts (_summary imp) !! b) ≤ k.

(** * [eqcatalogue.grouping] *)

Module Grouping.
Import Models.

(** The body of the loop of [GroupMeasuresByEventSourceKey.group]. A
    key that is not in [groups] is first given the empty list;
    [groups[key].append(m)] then finds the key, so that [alter], which
    leaves a map without the key as it is where Python raises, never
    meets that case. *)
Definition group_step (groups : gmap string (list MagnitudeMeasure))
    (m : MagnitudeMeasure) : gmap string (list MagnitudeMeasure) :=
  let key := source_key (mk_event (mm_key m)) in
  let groups :=
    if bool_decide (groups !! key = None)
    then <[key := []]> groups else groups in
  alter (λ l, l ++ [m]) key groups.

(** [GroupMeasuresByEventSourceKey.group], run on the list that
    [measure_filter.all()] returns. The order of the keys of the dict
    is not modelled. *)
Definition group (measures : list MagnitudeMeasure)
  : gmap string (list MagnitudeMeasure) :=
  foldl group_step ∅ measures.

(** [GroupMeasuresByEventSourceKey.group_measures] *)
Definition group_measures (measures : list MagnitudeMeasure)
  : gmap string (list MagnitudeMeasure) :=
  group measures.

End Grouping.

(** * Converted measures of [eqcatalogue.models] *)

Module Conversion.
Import Py Models.

Section Formula.
(** The only attribute [convert] reads of a formula is its
    [target_scale]. *)
Context {ConversionFormula : Type}.
Context (target_scale : ConversionFormula → string).

(** [ConvertedMeasure] *)
Record ConvertedMeasure : Type := {
  cm_agency : agency_ref;
  cm_event : NaturalKey;
  cm_origin : NaturalKey;
  cm_scale : string;
  cm_value : value;
  cm_standard_error : value;
  original_measure : option MagnitudeMeasure;
  formulas : list ConversionFormula
}.

(** [ConvertedMeasure.__init__]: [self.formulas = formulas or []]. *)
Definition ConvertedMeasure_init (agency : agency_ref)
    (event origin : NaturalKey) (scale : string)
    (value standard_error : value)
    (original_measure : option MagnitudeMeasure)
    (formulas : option (list ConversionFormula)) : ConvertedMeasure :=
  {| cm_agency := agency; cm_event := event; cm_origin := origin;
     cm_scale := scale; cm_value := value;
     cm_standard_error := standard_error;
     original_measure := original_measure;
     formulas := match formulas with
                 | Some (f :: l) => f :: l
                 | _ => []
                 end |}.

(** [MagnitudeMeasure.convert] *)
Definition MagnitudeMeasure_convert (self : MagnitudeMeasure)
    (new_value : value) (formula : ConversionFormula)
    (standard_error : value) : ConvertedMeasure :=
  ConvertedMeasure_init
    (mk_agency (mm_key self)) (mk_event (mm_key self))
    (mk_origin (mm_key self))
    (target_scale formula) new_value standard_error
    (Some self) (Some [formula]).

(** [ConvertedMeasure.convert] *)
Definition ConvertedMeasure_convert (self : ConvertedMeasure)
    (new_value : value) (formula : ConversionFormula)
    (standard_error : value) : ConvertedMeasure :=
  ConvertedMeasure_init
    (cm_agency self) (cm_event self) (cm_origin self)
    (target_scale formula) new_value standard_error
    (original_measure self) (Some (formulas self ++ [formula])).

(** One conversion: the arguments of one call of [convert]. *)
Record conversion : Type := {
  new_value : value;
  by_formula : ConversionFormula;
  with_error : value
}.

(** A measure converted once, and the result converted again for each
    further conversion, as [Harmoniser.harmonise] does with the
    formulas of a path. *)
Definition convert_all (m : MagnitudeMeasure) (c : conversion)
    (cs : list conversion) : ConvertedMeasure :=
  foldl (λ cm c,
           ConvertedMeasure_convert cm
             (new_value c) (by_formula c) (with_error c))
    (MagnitudeMeasure_convert m
       (new_value c) (by_formula c) (with_error c))
    cs.

End Formula.
End Conversion.

(** ** Properties *)

Section Monad.
Context {R : Importer → Importer → Prop} `{!PreOrder R}.

Lemma preserves_ret {A} (a : A) : preserves R (ret a).
Proof. intros imp. reflexivity. Qed.

Lemma preserves_raise {A} e : preserves R (raise (A := A) e).
Proof. intros imp. reflexivity. Qed.

Lemma preserves_lift {A} (r : res A) : preserves R (lift r).
Proof. intros imp. reflexivity. Qed.

Lemma preserves_get : preserves R get.
Proof. intros imp. reflexivity. Qed.

Lemma preserves_bind {A B} (m : M A) (f : A → M B) :
  preserves R m → (∀ a, preserves R (f a)) → preserves R (mbind m f).
Proof.
  intros Hm Hf imp. unfold mbind.
  specialize (Hm imp). destruct (m imp) as [imp' [a|e]]; simpl in *.
  - etransitivity; [exact Hm | apply Hf].
  - exact Hm.
Qed.

Lemma preserves_modify (f : Importer → Importer) :
  (∀ imp, R imp (f imp)) → preserves R (modify f).
Proof. intros Hf imp. apply Hf. Qed.

Lemma preserves_on_catalogue {A}
    (f : CatalogueDatabase → CatalogueDatabase * res A) :
  (∀ imp, R imp (set_catalogue (f (_catalogue imp)).1 imp)) →
  preserves R (on_catalogue f).
Proof.
  intros Hf imp. unfold on_catalogue. specialize (Hf imp).
  destruct (f (_catalogue imp)) as [cat r]. exact Hf.
Qed.
End Monad.

Global Instance decodes_preorder : PreOrder decodes.
Proof.
  split.
  - intros imp. split; try done. exists []. by rewrite app_nil_r.
  - intros a b c [S1 V1 (cs1 & C1 & F1) A1 O1 E1 U1]
                 [S2 V2 (cs2 & C2 & F2) A2 O2 E2 U2].
    split; [congruence | congruence | | by etrans | by etrans | auto
           | congruence].
    exists (cs1 ++ cs2). rewrite C2, C1, <-app_assoc. split; [done|].
    by apply Forall_app.
Qed.

Global Instance loops_preorder : PreOrder loops.
Proof.
  split.
  - intros imp. split; try done. exists []. rewrite app_nil_r.
    split; [done | apply not_elem_of_nil].
  - intros a b c [S1 V1 (cs1 & C1 & F1) A1 O1 E1 U1]
                 [S2 V2 (cs2 & C2 & F2) A2 O2 E2 U2].
    split; [congruence | congruence | | by etrans | by etrans | auto
           | by etrans].
    exists (cs1 ++ cs2). rewrite C2, C1, <-app_assoc. split; [done|].
    rewrite elem_of_app. tauto.
Qed.

Lemma decodes_loops imp imp' : decodes imp imp' → loops imp imp'.
Proof.
  intros [S1 V1 (cs1 & C1 & F1) A1 O1 E1 U1].
  split; try done.
  - exists cs1. split; [done|]. intros Hin.
    rewrite Forall_forall in F1. by apply F1 in Hin.
  - by rewrite U1.
Qed.

(** *** The catalogue *)

Section GetOrCreate.
Context {O Q C : Type} (cls : model_class O Q C).

Lemma get_or_create_calls q c cat :
  calls (get_or_create cls q c cat).1
  = calls cat ++ [GetOrCreate (describe cls q)].
Proof.
  unfold get_or_create. simpl.
  destruct (violates cat _); [done|].
  by destruct (List.filter _ _).
Qed.

Lemma get_or_create_stored q c cat :
  stored (get_or_create cls q c cat).1 = stored cat.
Proof.
  unfold get_or_create. simpl.
  destruct (violates cat _); [done|].
  by destruct (List.filter _ _).
Qed.

Lemma get_or_create_violates q c cat :
  violates (get_or_create cls q c cat).1 = violates cat.
Proof.
  unfold get_or_create. simpl.
  destruct (violates cat _); [done|].
  by destruct (List.filter _ _).
Qed.

Lemma get_or_create_decodes q c imp :
  decodes imp (set_catalogue (get_or_create cls q c (_catalogue imp)).1 imp).
Proof.
  split; simpl; try done.
  - apply get_or_create_stored.
  - apply get_or_create_violates.
  - eexists. split; [apply get_or_create_calls|].
    by repeat constructor.
Qed.
End GetOrCreate.

(** *** What decoding leaves alone *)

Lemma decodes_set_state s imp : decodes imp (set_state s imp).
Proof. split; try done. exists []. by rewrite app_nil_r. Qed.

Lemma decodes_set_origin_block a o m imp :
  decodes imp (set_origin_block a o m imp).
Proof.
  unfold set_origin_block. destruct (_state imp); try reflexivity;
    apply decodes_set_state.
Qed.

Lemma decodes_establish es imp :
  decodes imp (set_initial {| ss_eventsource := Some es |} imp).
Proof.
  split; try done.
  - exists []. by rewrite app_nil_r.
  - intros _. by eexists.
Qed.

Lemma decodes_rename_event k name imp :
  decodes imp (set_catalogue (rename_event k name (_catalogue imp)) imp).
Proof. split; try done. exists []. by rewrite app_nil_r. Qed.

Lemma decodes_insert_agency author (agency : Agency * bool) imp :
  decodes imp
    (set_context
       {| agencies := <[author := agency]> (agencies (_context imp));
          origins := origins (_context imp) |} imp).
Proof.
  split; try done; simpl.
  - exists []. by rewrite app_nil_r.
  - rewrite dom_insert_L. set_solver.
Qed.

Lemma decodes_insert_origin key (origin : NaturalKey) imp :
  decodes imp
    (set_context
       {| agencies := agencies (_context imp);
          origins := <[key := origin]> (origins (_context imp)) |} imp).
Proof.
  split; try done; simpl.
  - exists []. by rewrite app_nil_r.
  - rewrite dom_insert_L. set_solver.
Qed.

Create HintDb isf.
#[export] Hint Resolve decodes_set_state decodes_set_origin_block
  decodes_establish decodes_rename_event decodes_insert_agency
  decodes_insert_origin get_or_create_decodes : isf.

(** One step through a method written in the monad. *)
Ltac frame_step :=
  first
    [ apply preserves_ret
    | apply preserves_raise
    | apply preserves_lift
    | apply preserves_get
    | apply preserves_bind; [| intros ?]
    | apply preserves_modify; intros ?; solve [auto with isf]
    | apply preserves_on_catalogue; intros ?; solve [auto with isf]
    | match goal with
      | |- preserves _ (match ?x with _ => _ end) => destruct x
      | |- preserves _ (if ?b then _ else _) => destruct b
      | |- preserves _ (let _ := _ in _) => cbv zeta
      end ].
Ltac frame := repeat frame_step.

Lemma StartState_process_line_decodes line :
  preserves decodes (StartState_process_line line).
Proof. unfold StartState_process_line. frame. Qed.

Lemma _save_event_decodes es id name :
  preserves decodes (_save_event es id name).
Proof. unfold _save_event. frame. Qed.

Lemma EventState_process_line_decodes es line :
  preserves decodes (EventState_process_line es line).
Proof.
  unfold EventState_process_line. frame; apply _save_event_decodes.
Qed.

Lemma _save_agency_decodes event author :
  preserves decodes (_save_agency event author).
Proof. unfold _save_agency. frame. Qed.

Lemma _save_origin_decodes event key kwargs :
  preserves decodes (_save_origin event key kwargs).
Proof. unfold _save_origin. frame. Qed.

Lemma OriginBlockState_process_line_decodes event line :
  preserves decodes (OriginBlockState_process_line event line).
Proof.
  unfold OriginBlockState_process_line, _process_agency, _process_origin,
    _process_metadata.
  frame; auto using _save_agency_decodes, _save_origin_decodes.
Qed.

Lemma set_metadata_stations_decodes v :
  preserves decodes (set_metadata_stations v).
Proof. unfold set_metadata_stations. frame. Qed.

Lemma _save_measure_decodes event agency_name key scale v e :
  preserves decodes (_save_measure event agency_name key scale v e).
Proof. unfold _save_measure. frame. Qed.

Lemma MeasureBlockState_process_line_decodes event line :
  preserves decodes (MeasureBlockState_process_line event line).
Proof.
  unfold MeasureBlockState_process_line.
  frame; auto using _save_measure_decodes, set_metadata_stations_decodes.
Qed.

Lemma MeasureUKScaleBlockState_process_line_decodes event line :
  preserves decodes (MeasureUKScaleBlockState_process_line event line).
Proof.
  unfold MeasureUKScaleBlockState_process_line.
  frame; auto using _save_measure_decodes, set_metadata_stations_decodes.
Qed.

Lemma process_line_decodes line : preserves decodes (process_line line).
Proof.
  unfold process_line.
  frame;
    auto using StartState_process_line_decodes,
      EventState_process_line_decodes,
      OriginBlockState_process_line_decodes,
      MeasureBlockState_process_line_decodes,
      MeasureUKScaleBlockState_process_line_decodes.
Qed.

Lemma transition_rule_decodes lt : preserves decodes (transition_rule lt).
Proof. unfold transition_rule. frame. Qed.

Lemma try_decode_decodes lt line : preserves decodes (try_decode lt line).
Proof.
  unfold try_decode.
  apply preserves_bind; [apply transition_rule_decodes | intros next_state].
  apply preserves_bind; [| intros _; apply process_line_decodes].
  apply preserves_modify. auto with isf.
Qed.

(** *** One turn of the loop *)

Lemma store_line_unfold aj n line imp :
  store_line aj n line imp =
    let l := PyStr.strip line in
    let lt := _detect_line_type imp l in
    match lt with
    | comment => (imp, Ok Continue)
    | stop => (imp, Ok Break)
    | _ =>
        match try_decode lt l imp with
        | (imp1, Ok out) => (counted out imp1, Ok Continue)
        | (imp1, Err IntegrityError) =>
            (aborted imp1, Err (ParsingFailure n))
        | (imp1, Err UnexpectedLine) | (imp1, Err ValueError) =>
            if is_start (_initial imp1) (_state imp1)
               && bool_decide (lt = junk) && aj
            then (imp1, Ok Continue)
            else (recovered n imp1, Ok Continue)
        | (imp1, Err e) => (imp1, Err e)
        end
    end.
Proof.
  unfold store_line, mbind, get. cbv zeta.
  destruct (_detect_line_type imp (PyStr.strip line)) eqn:Hlt;
    try reflexivity;
    unfold try_line, try_decode, mbind;
    destruct (transition_rule _ imp) as [i1 [st|e1]]; try (by destruct e1);
    destruct (_transition st i1) as [i2 [[]|e2]]; try (by destruct e2);
    destruct (process_line _ i2) as [i3 [out|e3]]; try (by destruct e3);
    reflexivity.
Qed.

Lemma loops_counted out imp : loops imp (counted out imp).
Proof.
  split; try done.
  - exists []. rewrite app_nil_r. split; [done | apply not_elem_of_nil].
Qed.

Lemma loops_aborted imp : loops imp (aborted imp).
Proof.
  split; try done. exists [Rollback]. split; [done|].
  by intros ?%list_elem_of_singleton.
Qed.

Lemma loops_recovered n imp : loops imp (recovered n imp).
Proof.
  split; try done; simpl.
  - exists [Rollback]. split; [done|].
    by intros ?%list_elem_of_singleton.
  - by apply prefix_app_r.
Qed.

Lemma store_line_loops aj n line : preserves loops (store_line aj n line).
Proof.
  intros imp. rewrite store_line_unfold. cbv zeta.
  pose proof (try_decode_decodes
                (_detect_line_type imp (PyStr.strip line))
                (PyStr.strip line) imp) as Hd.
  apply decodes_loops in Hd.
  destruct (_detect_line_type imp (PyStr.strip line)); try reflexivity;
    destruct (try_decode _ _ imp) as [imp1 [out|e]]; simpl in *;
    try (etrans; [exact Hd | apply loops_counted]);
    destruct e; simpl; try exact Hd;
    try (etrans; [exact Hd | apply loops_aborted]);
    try (destruct (_ && _ && aj); simpl;
         [exact Hd | etrans; [exact Hd | apply loops_recovered]]).
Qed.

Lemma store_loop_loops aj lines :
  ∀ n, preserves loops (store_loop aj n lines).
Proof.
  induction lines as [|line rest IH]; intros n.
  - apply preserves_ret.
  - simpl. apply preserves_bind; [apply store_line_loops|].
    intros []; [apply IH | apply preserves_ret].
Qed.

Lemma advance_loops aj lines :
  ∀ n imp imp', advance aj n lines imp = Some imp' → loops imp imp'.
Proof.
  induction lines as [|line rest IH]; intros n imp imp'; simpl.
  - intros [= ->]. reflexivity.
  - pose proof (store_line_loops aj n line imp) as Hl.
    destruct (store_line aj n line imp) as [imp1 [[]|e]]; try done.
    intros H. etrans; [exact Hl | by eapply IH].
Qed.

Lemma store_loop_app aj pre rest :
  ∀ n imp imp1,
    advance aj n pre imp = Some imp1 →
    store_loop aj n (pre ++ rest) imp
    = store_loop aj (n + length pre) rest imp1.
Proof.
  induction pre as [|line pre IH]; intros n imp imp1; simpl.
  - intros [= ->]. by rewrite Nat.add_0_r.
  - unfold mbind at 1.
    destruct (store_line aj n line imp) as [imp' [[]|e]]; try done.
    intros H. rewrite (IH _ _ _ H). f_equal. lia.
Qed.

(** *** Invalid transitions and junk *)

Lemma try_decode_invalid lt line imp :
  _get_next_state (_initial imp) (_state imp) lt = None →
  try_decode lt line imp = (imp, Err UnexpectedLine).
Proof.
  intros H. unfold try_decode, transition_rule, mbind, get. by rewrite H.
Qed.

Lemma try_decode_valid lt line imp st :
  _get_next_state (_initial imp) (_state imp) lt = Some st →
  try_decode lt line imp = process_line line (set_state st imp).
Proof.
  intros H. unfold try_decode, transition_rule, mbind, get. rewrite H.
  simpl. by destruct (process_line line _) as [? []].
Qed.

Lemma junk_is_never_accepted initial st :
  _get_next_state initial st junk = None.
Proof. destruct st as [| ? [] | | | | |]; try done. Qed.

Lemma is_start_spec imp :
  is_start (_initial imp) (_state imp) = true
  ↔ _state imp = StartS ∧ ss_eventsource (_initial imp) = None.
Proof.
  unfold is_start.
  destruct (_state imp); try (split; [done | intros [H ?]; discriminate H]).
  rewrite bool_decide_eq_true. tauto.
Qed.

Lemma established_not_start imp :
  established imp → is_start (_initial imp) (_state imp) = false.
Proof.
  intros [es Hes]. apply not_true_is_false. rewrite is_start_spec.
  intros [_ H]. congruence.
Qed.

(** C6: a junk line met while the current state can start a catalogue
    is skipped when junk is allowed, the importer (its summary and its
    state with it) being left exactly as it was; when junk is not
    allowed the line is given up the way an invalid transition is: a
    rollback, the parse error of that line appended, the state the
    initial one. *)
Theorem junk_while_start allow_junk line_num line imp :
  is_start (_initial imp) (_state imp) = true →
  _detect_line_type imp (PyStr.strip line) = junk →
  store_line allow_junk line_num line imp
  = (if allow_junk then imp else recovered line_num imp, Ok Continue).
Proof.
  intros Hstart Hjunk. rewrite store_line_unfold. cbv zeta. rewrite Hjunk.
  rewrite try_decode_invalid by apply junk_is_never_accepted.
  rewrite Hstart. by destruct allow_junk.
Qed.

(** *** The start state object *)

Global Instance keeps_initial_preorder : PreOrder keeps_initial.
Proof.
  split; [by intros ? | intros a b c H1 H2].
  unfold keeps_initial in *. congruence.
Qed.

Lemma keeps_initial_set_origin_block a o m imp :
  keeps_initial imp (set_origin_block a o m imp).
Proof. unfold set_origin_block. by destruct (_state imp). Qed.

#[export] Hint Resolve keeps_initial_set_origin_block : isf.
#[export] Hint Extern 1 (keeps_initial _ _) => reflexivity : isf.

Lemma later_states_keep_initial line imp :
  _state imp ≠ StartS → keeps_initial imp (process_line line imp).1.
Proof.
  intros Hst. unfold process_line, mbind, get.
  destruct (_state imp) as [|es ev|ev|event a o m|ev m|event m|event m] eqn:E;
    try done; clear E Hst; revert imp.
  - change (preserves keeps_initial (EventState_process_line es line)).
    unfold EventState_process_line. frame.
  - change (preserves keeps_initial
              (OriginBlockState_process_line event line)).
    unfold OriginBlockState_process_line. frame.
  - change (preserves keeps_initial
              (MeasureBlockState_process_line event line)).
    unfold MeasureBlockState_process_line. frame.
  - change (preserves keeps_initial
              (MeasureUKScaleBlockState_process_line event line)).
    unfold MeasureUKScaleBlockState_process_line. frame.
Qed.

Lemma failed_decode_keeps_initial lt line imp imp1 e :
  try_decode lt line imp = (imp1, Err e) → _initial imp1 = _initial imp.
Proof.
  destruct (_get_next_state (_initial imp) (_state imp) lt) as [st|] eqn:Hn.
  - rewrite (try_decode_valid _ _ _ _ Hn).
    assert (st = StartS ∨ st ≠ StartS) as [->|Hst]
      by (destruct st; auto).
    + unfold process_line, mbind, get. cbn [_state set_state].
      unfold StartState_process_line, mbind, on_catalogue.
      destruct (get_or_create EventSourceC line tt _)
        as [cat [[es created]|e']]; simpl.
      * done.
      * by intros [= <- _].
    + intros H.
      pose proof (later_states_keep_initial line (set_state st imp) Hst) as K.
      rewrite H in K. exact K.
  - rewrite (try_decode_invalid _ _ _ Hn). by intros [= <- _].
Qed.

Lemma try_line_unfold lt line imp :
  try_line lt line imp =
    match try_decode lt line imp with
    | (imp1, Ok out) => (counted out imp1, Ok tt)
    | (imp1, Err e) => (imp1, Err e)
    end.
Proof.
  unfold try_line, try_decode, mbind.
  destruct (transition_rule _ imp) as [i1 [st|e1]]; [|done].
  cbn [_transition modify].
  by destruct (process_line _ _) as [i3 [out|e3]].
Qed.

Lemma catalogue_header_establishes line imp imp' :
  try_line catalogue_header line imp = (imp', Ok tt) → established imp'.
Proof.
  rewrite try_line_unfold.
  destruct (_get_next_state (_initial imp) (_state imp) catalogue_header)
    as [st|] eqn:Hn.
  - rewrite (try_decode_valid _ _ _ _ Hn).
    assert (st = StartS) as ->.
    { destruct (_state imp) as [|? []| | | | |]; simpl in Hn; congruence. }
    unfold process_line, mbind, get. cbn [_state set_state].
    unfold StartState_process_line, mbind, on_catalogue.
    destruct (get_or_create EventSourceC line tt _)
      as [cat [[es created]|e']]; simpl; [|done].
    intros [= <-]. by eexists.
  - by rewrite (try_decode_invalid _ _ _ Hn).
Qed.

Lemma recovery_spec aj n line imp imp' :
  store_line aj n line imp = (imp', Ok Continue) →
  ERRORS (_summary imp') ≠ ERRORS (_summary imp) →
  ∃ imp1 e,
    try_decode (_detect_line_type imp (PyStr.strip line)) (PyStr.strip line)
      imp = (imp1, Err e)
    ∧ (e = UnexpectedLine ∨ e = ValueError)
    ∧ imp' = recovered n imp1.
Proof.
  rewrite store_line_unfold. cbv zeta.
  pose proof (try_decode_decodes
                (_detect_line_type imp (PyStr.strip line))
                (PyStr.strip line) imp) as [_ _ _ _ _ _ Hs].
  destruct (_detect_line_type imp (PyStr.strip line));
    try (by intros [= <-]);
    destruct (try_decode _ _ imp) as [imp1 [out|e]]; simpl in Hs;
    try (intros [= <-]; simpl; by rewrite Hs);
    destruct e; try done;
    (destruct (_ && _ && aj);
     [ intros [= <-]; by rewrite Hs
     | intros [= <-] _; eauto 6 ]).
Qed.

(** C10: once a catalogue header has been processed the start state
    has its event source; from then on every configuration the loop
    reaches still has it, and [is_start] is false there; a recovery
    puts back the initial state object with the event source it had;
    so a junk line is then given up even when junk is allowed, and a
    line of 136 (of 38) characters that none of the six earlier rules
    claims is an origin block (a measure block). *)
Theorem is_start_false_after_catalogue_header :
  (∀ line imp imp',
     try_line catalogue_header line imp = (imp', Ok tt) → established imp')
  ∧ (∀ allow_junk n lines imp,
       established imp →
       let imp' := (store_loop allow_junk n lines imp).1 in
       established imp' ∧ is_start (_initial imp') (_state imp') = false)
  ∧ (∀ allow_junk n line imp imp',
       store_line allow_junk n line imp = (imp', Ok Continue) →
       ERRORS (_summary imp') ≠ ERRORS (_summary imp) →
       _state imp' = StartS ∧ _initial imp' = _initial imp)
  ∧ (∀ n line imp,
       established imp →
       _detect_line_type imp (PyStr.strip line) = junk →
       store_line true n line imp = (recovered n imp, Ok Continue))
  ∧ (∀ line imp,
       established imp →
       (PyStr.len line = 136%nat →
        _detect_line_type imp line
        ∈ [catalogue_header; stop; comment; origin_header; measure_header;
           event_header; origin_block])
       ∧ (PyStr.len line = 38%nat →
          _detect_line_type imp line
          ∈ [catalogue_header; stop; comment; origin_header;
             measure_header; event_header; measure_block])).
Proof.
  split; [exact catalogue_header_establishes|].
  split.
  { intros aj n lines imp He imp'.
    assert (established imp') as He'
      by (by apply (store_loop_loops aj lines n imp)).
    split; [done | by apply established_not_start]. }
  split.
  { intros aj n line imp imp' Hs He.
    destruct (recovery_spec _ _ _ _ _ Hs He) as (imp1 & e & Hd & _ & ->).
    split; [done|]. simpl. by eapply failed_decode_keeps_initial. }
  split.
  { intros n line imp He Hj. rewrite store_line_unfold. cbv zeta.
    rewrite Hj, try_decode_invalid by apply junk_is_never_accepted.
    by rewrite (established_not_start _ He). }
  intros line imp He. unfold _detect_line_type.
  rewrite (established_not_start _ He). simpl.
  split; intros Hlen; rewrite Hlen;
    change (bool_decide (136%nat = 136%nat)) with true;
    change (bool_decide (38%nat = 136%nat)) with false;
    change (bool_decide (38%nat = 38%nat)) with true; simpl;
    repeat match goal with
      | |- context [if ?b then _ else _] =>
          destruct b; [by repeat constructor|]
      end; by repeat constructor.
Qed.

(** *** The matcher, one step at a time *)

Section Run.
Variables (fuel n0 : nat).
Implicit Types (s : string) (g : Re.groups) (k : Re.cont).

Lemma run_eps s g k : Re.run fuel n0 Re.Eps s g k = k s g.
Proof. by destruct fuel. Qed.

Lemma run_seq r1 r2 s g k :
  Re.run fuel n0 (Re.Seq r1 r2) s g k
  = Re.run fuel n0 r1 s g (λ s' g', Re.run fuel n0 r2 s' g' k).
Proof. by destruct fuel. Qed.

Lemma run_chr c s g k :
  Re.run fuel n0 (Re.Chr c) s g k
  = match s with
    | String a s' => if decide (a = c) then k s' g else None
    | EmptyString => None
    end.
Proof. by destruct fuel. Qed.

Lemma run_cls p s g k :
  Re.run fuel n0 (Re.Cls p) s g k
  = match s with
    | String a s' => if p a then k s' g else None
    | EmptyString => None
    end.
Proof. by destruct fuel. Qed.

Lemma run_bol s g k :
  Re.run fuel n0 Re.Bol s g k
  = if decide (String.length s = n0) then k s g else None.
Proof. by destruct fuel. Qed.
End Run.

Lemma run_star f n0 r s g k :
  Re.run (S f) n0 (Re.Star r) s g k
  = match Re.run (S f) n0 r s g
            (λ s' g',
              if (String.length s' <? String.length s)%nat
              then Re.run f n0 (Re.Star r) s' g' k else None) with
    | Some m => Some m
    | None => k s g
    end.
Proof. reflexivity. Qed.

Lemma append_nil s : "" +:+ s = s.
Proof. reflexivity. Qed.

Lemma append_cons a s t : String a s +:+ t = String a (s +:+ t).
Proof. reflexivity. Qed.

(** Any number of characters other than a newline, then [k]. *)
Lemma run_star_dot n0 g k s :
  ∀ fuel, (String.length s < fuel)%nat →
    (is_Some (Re.run fuel n0 (Re.Star Re.dot) s g k)
     ↔ ∃ body rest,
         s = body +:+ rest ∧ no_newline body ∧ is_Some (k rest g)).
Proof.
  induction s as [|a s IH]; intros [|f] Hf; try (simpl in Hf; lia).
  - rewrite run_star. unfold Re.dot. rewrite run_cls. split.
    + intros H. by exists "", "".
    + intros (body & rest & E & _ & H).
      destruct body; [by rewrite append_nil in E; subst | done].
  - rewrite run_star. unfold Re.dot at 1. rewrite run_cls.
    fold Re.dot. simpl in Hf.
    assert ((String.length s <? String.length (String a s))%nat = true) as ->
      by (apply Nat.ltb_lt; simpl; lia).
    destruct (decide (a = "010"%char)) as [->|Ha].
    + simpl. split.
      * intros H. by exists "", (String "010" s).
      * intros (body & rest & E & Hb & H). destruct body as [|b body].
        -- rewrite append_nil in E. by subst.
        -- rewrite append_cons in E. injection E as <- _. by destruct Hb.
    + rewrite bool_decide_false by done. cbn [negb].
      specialize (IH f ltac:(lia)).
      destruct (Re.run f n0 (Re.Star Re.dot) s g k) as [m|] eqn:Hr.
      * split; [intros _ | by eauto].
        destruct IH as [IH _].
        destruct (IH ltac:(by eexists)) as (body & rest & -> & Hb & H).
        by exists (String a body), rest.
      * split.
        -- intros H. by exists "", (String a s).
        -- intros (body & rest & E & Hb & H). destruct body as [|b body].
           ++ rewrite append_nil in E. by subst.
           ++ rewrite append_cons in E. injection E as <- ->.
              destruct Hb as [_ Hb].
              destruct IH as [_ IH].
              destruct IH as [? IH]; [by eauto | done].
Qed.

Lemma comment_regexp_spec line :
  matches comment_regexp line = true ↔ comment_shape line.
Proof.
  unfold matches. rewrite bool_decide_eq_true.
  unfold Re.rmatch, comment_regexp, cat. cbn [foldr].
  rewrite run_seq, run_bol, decide_True by done.
  rewrite run_seq, run_chr.
  destruct line as [|a s1].
  { split; [by intros [] | by intros (?&?&?&?&?&?)]. }
  destruct (decide (a = "("%char)) as [->|Ha].
  2:{ split; [by intros [] | intros (?&?&?&?&[= ?]&?); done]. }
  rewrite run_seq, run_cls.
  destruct s1 as [|c s2].
  { split; [by intros [] | by intros (?&?&?&?&?&?)]. }
  destruct (decide (c = ")"%char)) as [->|Hc].
  { simpl. split; [by intros [] | intros (?&?&?&?&[= <-]&?&?); done]. }
  rewrite bool_decide_false by done. cbn [negb].
  unfold Re.Plus. rewrite !run_seq. unfold Re.dot at 1. rewrite run_cls.
  destruct s2 as [|d s3].
  { split; [by intros [] | by intros (?&?&?&?&?&?)]. }
  destruct (decide (d = "010"%char)) as [->|Hd].
  { simpl. split; [by intros [] |].
    intros (?&?&?&?&[= _ <-]&?&[]); done. }
  rewrite bool_decide_false by done. cbn [negb].
  rewrite run_star_dot by (simpl; lia).
  split.
  - intros (body & rest & -> & Hb & H).
    rewrite run_seq, run_chr in H.
    destruct rest as [|b rest]; [by destruct H|].
    destruct (decide (b = ")"%char)) as [->|]; [|by destruct H].
    by exists c, d, body, rest.
  - intros (c' & d' & body & rest & [= <- <- ->] & _ & _ & Hb).
    exists body, (String ")" rest). split; [done|]. split; [done|].
    rewrite run_seq, run_chr, decide_True, run_eps by done. by eexists.
Qed.

Lemma later_rules_not_comment (b1 b2 b3 b4 b5 b6 : bool) :
  (if b1 then origin_header
   else if b2 then measure_header
   else if b3 then event_header
   else if b4 then origin_block
   else if b5 then measure_block
   else if b6 then measure_unknown_scale_block else junk) ≠ comment.
Proof. by destruct b1, b2, b3, b4, b5, b6. Qed.

(** C7, as the code has it: a line that is neither ["ISC Bulletin"]
    nor ["STOP"] is a comment exactly when it is blank, or opens with a
    parenthesis, goes on with a character that is not a closing
    parenthesis and at least one more character, and then has a closing
    parenthesis, no newline standing between the second character and
    that parenthesis. *)
Theorem comment_classification imp line :
  line ≠ "ISC Bulletin" → line ≠ "STOP" →
  (_detect_line_type imp line = comment
   ↔ PyStr.strip line = "" ∨ comment_shape line).
Proof.
  intros H1 H2. unfold _detect_line_type.
  rewrite !bool_decide_false by done.
  rewrite <-comment_regexp_spec.
  destruct (matches comment_regexp line).
  - simpl. by split; [right|].
  - simpl. destruct (decide (PyStr.strip line = "")) as [E|E].
    + rewrite bool_decide_true by done. by split; [left|].
    + rewrite bool_decide_false by done. split.
      * intros H. by apply later_rules_not_comment in H.
      * by intros [|].
Qed.

(** *** Witnesses on the sample bulletin *)

Lemma junk_while_start_witness :
  store_line true 1 Sample.invalid_line (init Sample.empty_catalogue)
  = (init Sample.empty_catalogue, Ok Continue)
  ∧ store_line false 1 Sample.invalid_line (init Sample.empty_catalogue)
    = (recovered 1 (init Sample.empty_catalogue), Ok Continue).
Proof.
  split.
  - apply (junk_while_start true 1 Sample.invalid_line);
      vm_compute; reflexivity.
  - apply (junk_while_start false 1 Sample.invalid_line);
      vm_compute; reflexivity.
Defined.

Lemma comment_classification_witness :
  _detect_line_type (init Sample.empty_catalogue) "(abc) def" = comment
  ↔ PyStr.strip "(abc) def" = "" ∨ comment_shape "(abc) def".
Proof.
  apply (comment_classification (init Sample.empty_catalogue) "(abc) def");
    discriminate.
Defined.

(** C7, as stated, fails on a line that opens with a parenthesis never
    closed: it is junk, not a comment. *)
Lemma unclosed_parenthesis_is_junk :
  let line := "(abc" in
  line ≠ "ISC Bulletin" ∧ line ≠ "STOP" ∧ opens_unclosed line
  ∧ _detect_line_type (init Sample.empty_catalogue) line = junk
  ∧ ¬ (_detect_line_type (init Sample.empty_catalogue) line = comment
       ↔ PyStr.strip line = "" ∨ opens_unclosed line).
Proof.
  assert (opens_unclosed "(abc") as Hopen by (by exists "a"%char, "bc").
  assert (_detect_line_type (init Sample.empty_catalogue) "(abc" = junk)
    as Hjunk by (vm_compute; reflexivity).
  repeat split; try done.
  intros [_ H]. rewrite Hjunk in H. by specialize (H (or_intror Hopen)).
Qed.

Lemma is_start_false_after_catalogue_header_witness :
  let imp :=
    (store_loop true 1 Sample.block1 (init Sample.empty_catalogue)).1 in
  let imp' :=
    (store_loop true 8 (Sample.invalid_line :: Sample.block2) imp).1 in
  established imp
  ∧ (established imp' ∧ is_start (_initial imp') (_state imp') = false)
  ∧ store_line true 8 Sample.invalid_line imp = (recovered 8 imp, Ok Continue).
Proof.
  intros imp imp'.
  assert (established imp) as He by (vm_compute; by eexists).
  destruct is_start_false_after_catalogue_header as (_ & H2 & _ & H4 & _).
  split; [exact He|]. split.
  - exact (H2 true 8%nat (Sample.invalid_line :: Sample.block2) imp He).
  - apply (H4 8%nat Sample.invalid_line imp He). vm_compute. reflexivity.
Defined.

(** *** Recovery *)

Lemma store_unfold aj lines imp imp' :
  store_loop aj 1 lines imp = (imp', Ok tt) →
  store aj lines imp
  = (set_catalogue (commit (_catalogue imp')) imp', Ok (_summary imp')).
Proof. intros H. unfold store, mbind. by rewrite H. Qed.

Lemma store_raises aj lines imp imp' e :
  store_loop aj 1 lines imp = (imp', Err e) →
  store aj lines imp = (imp', Err e).
Proof. intros H. unfold store, mbind. by rewrite H. Qed.

Lemma advance_store_loop aj lines :
  ∀ n imp imp',
    advance aj n lines imp = Some imp' →
    store_loop aj n lines imp = (imp', Ok tt).
Proof.
  intros n imp imp' H.
  rewrite <-(app_nil_r lines), (store_loop_app _ _ _ _ _ _ H). done.
Qed.

Lemma advance_app aj pre rest :
  ∀ n imp imp1 imp2,
    advance aj n pre imp = Some imp1 →
    advance aj (n + length pre) rest imp1 = Some imp2 →
    advance aj n (pre ++ rest) imp = Some imp2.
Proof.
  induction pre as [|line pre IH]; intros n imp imp1 imp2; simpl.
  - intros [= ->]. by rewrite Nat.add_0_r.
  - destruct (store_line aj n line imp) as [imp' [[]|e]]; try done.
    intros H1 H2. eapply IH; [exact H1|].
    by replace (S n + length pre)%nat with (n + S (length pre))%nat by lia.
Qed.


(** C3, as the code has it: when the lines before have been read
    through and the [try] block of a line ends in an integrity error,
    [store] raises the parsing failure of that line, with its 1-based
    number; the catalogue is asked to roll back once, then and there;
    since the run began nothing has been committed, and what is stored
    is what was stored before. *)
Theorem integrity_error_aborts allow_junk pre line rest imp0 imp1 imp' :
  advance allow_junk 1 pre imp0 = Some imp1 →
  _detect_line_type imp1 (PyStr.strip line) ≠ comment →
  _detect_line_type imp1 (PyStr.strip line) ≠ stop →
  try_line (_detect_line_type imp1 (PyStr.strip line)) (PyStr.strip line) imp1
  = (imp', Err IntegrityError) →
  store allow_junk (pre ++ line :: rest) imp0
  = (aborted imp', Err (ParsingFailure (S (length pre))))
  ∧ calls (_catalogue (aborted imp')) = calls (_catalogue imp') ++ [Rollback]
  ∧ (∃ cs, calls (_catalogue (aborted imp'))
           = calls (_catalogue imp0) ++ cs ∧ Commit ∉ cs)
  ∧ stored (_catalogue (aborted imp')) = stored (_catalogue imp0)
  ∧ working (_catalogue (aborted imp')) = stored (_catalogue imp0).
Proof.
  intros A1 Hc Hs Ht.
  assert (store_line allow_junk (S (length pre)) line imp1
          = (aborted imp', Err (ParsingFailure (S (length pre))))) as Hl.
  { rewrite store_line_unfold. cbv zeta.
    rewrite try_line_unfold in Ht.
    destruct (_detect_line_type imp1 (PyStr.strip line)); try done;
      destruct (try_decode _ _ imp1) as [i [out|e]]; try done;
      by injection Ht as -> ->. }
  assert (store_loop allow_junk 1 (pre ++ line :: rest) imp0
          = (aborted imp', Err (ParsingFailure (S (length pre))))) as Hloop.
  { rewrite (store_loop_app _ _ _ _ _ _ A1). simpl. unfold mbind.
    by rewrite Hl. }
  pose proof (store_loop_loops allow_junk (pre ++ line :: rest) 1 imp0) as L.
  rewrite Hloop in L. destruct L as [Hst _ Hcalls _ _ _ _].
  repeat split; try done;
    first [by apply store_raises | simpl in *; congruence].
Qed.

Lemma strip_char c :
  Ascii.is_space c = false → PyStr.strip (String c "") = String c "".
Proof.
  intros H. unfold PyStr.strip. cbn [PyStr.lstrip]. rewrite H.
  cbn [PyStr.rstrip]. by rewrite H.
Qed.

(** C4, as the code has it: when the lines before have been read
    through, and a line taken for a measure block in a state that
    accepts one has anything but whitespace in column 5, [store] raises
    the assertion error to its caller. The importer is left as it was
    before the line but for the state, which has moved to the measure
    block: no parse error is recorded, nothing is rolled back and
    nothing is committed. *)
Theorem minmax_indicator_escapes allow_junk pre line rest imp0 imp1
    event metadata c :
  advance allow_junk 1 pre imp0 = Some imp1 →
  _detect_line_type imp1 (PyStr.strip line) = measure_block →
  _get_next_state (_initial imp1) (_state imp1) measure_block
  = Some (MeasureBlockS event metadata) →
  PyStr.index 5 (PyStr.strip line) = Some c →
  Ascii.is_space c = false →
  store allow_junk (pre ++ line :: rest) imp0
  = (set_state (MeasureBlockS event metadata) imp1, Err AssertionError).
Proof.
  intros A1 Hlt Hn Hc Hsp.
  apply store_raises.
  rewrite (store_loop_app _ _ _ _ _ _ A1). simpl. unfold mbind at 1.
  rewrite store_line_unfold. cbv zeta. rewrite Hlt.
  rewrite (try_decode_valid _ _ _ _ Hn).
  unfold process_line, mbind, get. cbn [_state set_state].
  unfold MeasureBlockState_process_line, mbind, lift, char_at.
  rewrite Hc. rewrite (strip_char _ Hsp). reflexivity.
Qed.

(** C5, as the code has it: a new importer starts in the initial state
    with both maps of the context empty; a recovery makes the state
    the initial one and leaves the context as the line given up left
    it, so that every key that could be read in either map before the
    line can still be read after the recovery; and [store] itself
    resets nothing on entry. *)
Theorem recovery_keeps_context :
  (∀ cat, _state (init cat) = StartS ∧ _context (init cat) = empty_context)
  ∧ (∀ allow_junk n line imp imp',
       store_line allow_junk n line imp = (imp', Ok Continue) →
       ERRORS (_summary imp') ≠ ERRORS (_summary imp) →
       _state imp' = StartS
       ∧ (∃ imp1 e,
            try_decode (_detect_line_type imp (PyStr.strip line))
              (PyStr.strip line) imp = (imp1, Err e)
            ∧ _context imp' = _context imp1)
       ∧ dom (agencies (_context imp)) ⊆ dom (agencies (_context imp'))
       ∧ dom (origins (_context imp)) ⊆ dom (origins (_context imp')))
  ∧ (∀ allow_junk imp,
       _state (store allow_junk [] imp).1 = _state imp
       ∧ _context (store allow_junk [] imp).1 = _context imp).
Proof.
  split; [done|]. split; [|done].
  intros aj n line imp imp' Hs He.
  destruct (recovery_spec _ _ _ _ _ Hs He) as (imp1 & e & Hd & _ & ->).
  pose proof (try_decode_decodes
                (_detect_line_type imp (PyStr.strip line))
                (PyStr.strip line) imp) as Hdec.
  rewrite Hd in Hdec. destruct Hdec as [_ _ _ Ha Ho _ _].
  split; [done|]. split; [by eauto|]. by split.
Qed.

(** *** The agency of a measure *)

Lemma first_asks_pure {A B} c (a : A) (k : A → M B) :
  first_asks c (k a) → first_asks c (mbind (lift (Ok a)) k).
Proof. done. Qed.


Lemma first_asks_bind {A B} c (m : M A) (k : A → M B) :
  first_asks c m → (∀ a, preserves decodes (k a)) → first_asks c (mbind m k).
Proof.
  intros Hm Hk imp. unfold mbind. destruct (Hm imp) as (cs & Hcs).
  destruct (m imp) as [imp1 [a|e]]; [|by exists cs].
  destruct (Hk a imp1) as [_ _ (cs2 & Hcs2 & _) _ _ _ _].
  exists (cs ++ cs2). simpl in Hcs. by rewrite Hcs2, Hcs, <-app_assoc.
Qed.

Lemma get_or_create_agency_result k cat cat' a created :
  get_or_create AgencyC k tt cat = (cat', Ok (a, created)) → a = k.
Proof.
  unfold get_or_create. cbv zeta.
  destruct (violates _ _); [done|].
  destruct (List.filter _ _) as [|found l] eqn:Hf.
  - by intros [= _ <- _].
  - intros [= _ <- _].
    assert (found ∈ List.filter (filter_by AgencyC k)
                      (table AgencyC (working (log (GetOrCreate
                         (describe AgencyC k)) cat)))) as Hin
      by (rewrite Hf; apply list_elem_of_here).
    apply list_elem_of_In, filter_In in Hin as [_ Hin].
    simpl in Hin. by apply bool_decide_eq_true in Hin.
Qed.


(** *** The sample bulletin, run *)

Ltac run_sample := vm_compute; reflexivity.



(** C3, as stated, fails on the sample block followed by its measure
    line with a min/max indicator, and on the sample block followed by
    a measure line that refers to an unknown origin: the collaborator
    reports no conflict at all and nothing is rolled back, and yet
    [store] raises. *)
Lemma store_raises_without_conflict :
  let run :=
    store true (Sample.block1 ++ [Sample.measure1_minmax])
      (init Sample.empty_catalogue) in
  let run' :=
    store true (Sample.block1 ++ [Sample.measure_unknown_origin])
      (init Sample.empty_catalogue) in
  (∀ cs, violates Sample.empty_catalogue cs = false)
  ∧ run.2 = Err AssertionError
  ∧ List.filter (λ c, bool_decide (c = Rollback)) (calls (_catalogue run.1))
    = []
  ∧ run'.2 = Err KeyError
  ∧ List.filter (λ c, bool_decide (c = Rollback)) (calls (_catalogue run'.1))
    = [].
Proof.
  intros run run'. split; [done|]. split; [run_sample|].
  split; [run_sample|]. split; run_sample.
Qed.

Lemma integrity_error_aborts_witness :
  let imp0 := init (Sample.conflict_at 6) in
  let pre := take 6 Sample.block1 in
  let run := store true (pre ++ [Sample.measure1]) imp0 in
  run.2 = Err (ParsingFailure 7)
  ∧ stored (_catalogue run.1) = no_tables
  ∧ working (_catalogue run.1) = no_tables.
Proof.
  intros imp0 pre run.
  pose (imp1 := default imp0 (advance true 1 pre imp0)).
  pose (imp' := (try_line measure_block Sample.measure1 imp1).1).
  assert (advance true 1 pre imp0 = Some imp1) as A1 by run_sample.
  assert (_detect_line_type imp1 (PyStr.strip Sample.measure1) ≠ comment)
    as Hc by (vm_compute; discriminate).
  assert (_detect_line_type imp1 (PyStr.strip Sample.measure1) ≠ stop)
    as Hs by (vm_compute; discriminate).
  assert (try_line (_detect_line_type imp1 (PyStr.strip Sample.measure1))
            (PyStr.strip Sample.measure1) imp1
          = (imp', Err IntegrityError)) as Ht by run_sample.
  destruct (integrity_error_aborts true pre Sample.measure1 [] imp0 imp1 imp'
              A1 Hc Hs Ht) as (H1 & _ & _ & H4 & H5).
  unfold run. rewrite H1. cbn [fst snd].
  split; [reflexivity|]. split; [exact H4 | exact H5].
Defined.

(** C4, as stated, fails on the sample block followed by its measure
    line with a min/max indicator: [store] raises the assertion error
    to its caller, no parse error is recorded, and the second block is
    never read. *)
Lemma minmax_indicator_is_not_recorded :
  let run :=
    store true
      (Sample.block1 ++ Sample.measure1_minmax :: Sample.block2)
      (init Sample.empty_catalogue) in
  run.2 = Err AssertionError
  ∧ ERRORS (_summary run.1) = []
  ∧ counts (_summary run.1) !! EVENT = Some 1.
Proof.
  intros run. split; [run_sample|]. split; run_sample.
Qed.

Lemma minmax_indicator_escapes_witness :
  let imp0 := init Sample.empty_catalogue in
  (store true (Sample.block1 ++ Sample.measure1_minmax :: Sample.block2)
     imp0).2
  = Err AssertionError.
Proof.
  intros imp0.
  pose (imp1 := default imp0 (advance true 1 Sample.block1 imp0)).
  pose (event := match _state imp1 with
                 | MeasureBlockS e _ => e
                 | _ => {| source_key := ""; eventsource := Sample.isc |}
                 end).
  pose (metadata := match _state imp1 with
                    | MeasureBlockS _ m => m
                    | _ => None
                    end).
  assert (advance true 1 Sample.block1 imp0 = Some imp1) as A1
    by run_sample.
  assert (_detect_line_type imp1 (PyStr.strip Sample.measure1_minmax)
          = measure_block) as Hlt by run_sample.
  assert (_get_next_state (_initial imp1) (_state imp1) measure_block
          = Some (MeasureBlockS event metadata)) as Hn by run_sample.
  assert (PyStr.index 5 (PyStr.strip Sample.measure1_minmax)
          = Some "<"%char) as Hc by run_sample.
  rewrite (minmax_indicator_escapes true Sample.block1
             Sample.measure1_minmax Sample.block2 imp0 imp1 event metadata
             "<"%char A1 Hlt Hn Hc eq_refl).
  reflexivity.
Defined.

(** C5, as stated, fails on the sample bulletin: after the line given
    up the state is the initial one, but the agency and the origin
    that the first block put in the context can still be read. *)
Lemma context_survives_recovery :
  let imp :=
    (store_loop true 1 Sample.block1 (init Sample.empty_catalogue)).1 in
  let imp' := (store_line true 8 Sample.invalid_line imp).1 in
  ERRORS (_summary imp') = [ParsingFailure 8]
  ∧ _state imp' = StartS
  ∧ agencies (_context imp') !! "NEIC"
    = Some ({| source_key := "NEIC"; eventsource := Sample.isc |}, true)
  ∧ origins (_context imp') !! "14342462"
    = Some {| source_key := "14342462"; eventsource := Sample.isc |}
  ∧ _context imp' ≠ empty_context.
Proof.
  intros imp imp'.
  split; [run_sample|]. split; [run_sample|]. split; [run_sample|].
  split; [run_sample|].
  intros H. apply (f_equal (λ c, origins c !! "14342462")) in H.
  vm_compute in H. discriminate.
Qed.

Lemma recovery_keeps_context_witness :
  let imp :=
    (store_loop true 1 Sample.block1 (init Sample.empty_catalogue)).1 in
  let imp' := (store_line true 8 Sample.invalid_line imp).1 in
  _state imp' = StartS
  ∧ dom (agencies (_context imp)) ⊆ dom (agencies (_context imp')).
Proof.
  intros imp imp'.
  assert (store_line true 8 Sample.invalid_line imp = (imp', Ok Continue))
    as Hs by run_sample.
  assert (ERRORS (_summary imp') ≠ ERRORS (_summary imp)) as He
    by (vm_compute; discriminate).
  destruct recovery_keeps_context as (_ & H & _).
  destruct (H true 8%nat Sample.invalid_line imp imp' Hs He)
    as (H1 & _ & H2 & _).
  split; [exact H1 | exact H2].
Defined.


(** Whatever the catalogue did with the origin, an origin-block line
    that is processed counts one origin. *)
Lemma origin_bucket_is_one event line imp imp' out :
  OriginBlockState_process_line event line imp = (imp', Ok out) →
  ∃ agency_created, out = [(AGENCY, one_if agency_created); (ORIGIN, 1)].
Proof.
  unfold OriginBlockState_process_line. unfold mbind at 1.
  destruct (_process_agency event line imp) as [i1 [agency_created|?]];
    [|done].
  unfold mbind at 1. unfold _process_origin.
  destruct ((kwargs <- lift (decode_origin line) ;;
             origin <- _save_origin event
                         (PyStr.strip (PyStr.slice 128 136 line)) kwargs ;;
             modify (set_origin_block None (Some origin) None) ;;
             ret true) i1) as [i2 [origin_created|?]] eqn:Ho; [|done].
  assert (origin_created = true) as ->.
  { revert Ho. unfold mbind, lift.
    destruct (decode_origin line) as [kwargs|?]; [|done].
    destruct (_save_origin event _ kwargs i1) as [i3 [origin|?]]; [|done].
    simpl. by intros [= _ <-]. }
  unfold mbind. destruct (_process_metadata line i2) as [i3 [[]|?]]; [|done].
  intros [= _ <-]. by exists agency_created.
Qed.

(** C2: on the sample block run a second time, against the catalogue
    its first run left, nothing is created and every other bucket
    counts zero, but the origin bucket counts one for the origin that
    was found. *)
Lemma origin_counted_when_found :
  let cat :=
    _catalogue (store true Sample.block1 (init Sample.empty_catalogue)).1 in
  let run := store true Sample.block1 (init cat) in
  run.2 = Ok (_summary run.1)
  ∧ ERRORS (_summary run.1) = []
  ∧ counts (_summary run.1) !! EVENT_SOURCE = Some 0
  ∧ counts (_summary run.1) !! EVENT = Some 0
  ∧ counts (_summary run.1) !! AGENCY = Some 0
  ∧ counts (_summary run.1) !! MEASURE = Some 0
  ∧ counts (_summary run.1) !! ORIGIN = Some 1
  ∧ working (_catalogue run.1) = stored cat
  ∧ length (tbl_origins (stored cat)) = 1%nat.
Proof.
  intros cat run.
  split; [run_sample|]. split; [run_sample|]. split; [run_sample|].
  split; [run_sample|]. split; [run_sample|]. split; [run_sample|].
  split; [run_sample|]. split; run_sample.
Qed.

(** C8: the unknown-scale line of the specification, read after a
    measure header with its origin in the context, is saved with the
    scale [Muk], the agency [XYZ;ABC] and the origin [OID001]; its
    value and its standard error are the matched texts ["5.20"] and
    ["0.30"], and the station count kept in the metadata is the text
    ["12"]: none of the three is converted to a number, as the
    fixed-column measure state converts them. *)
Lemma unknown_scale_measure_keeps_text :
  let imp :=
    (store_loop true 1 Sample.uk_block (init Sample.empty_catalogue)).1 in
  let imp' := (store_line true 6 Sample.uk_measure imp).1 in
  let event := {| source_key := "14342462"; eventsource := Sample.isc |} in
  _detect_line_type imp Sample.uk_measure = measure_unknown_scale_block
  ∧ tbl_measures (working (_catalogue imp'))
    = [{| mm_key :=
            {| mk_event := event;
               mk_origin := {| source_key := "OID001";
                               eventsource := Sample.isc |};
               mk_agency := AgencyObj {| source_key := "XYZ;ABC";
                                         eventsource := Sample.isc |};
               mk_scale := "Muk" |};
          mm_value := VStr "5.20";
          mm_standard_error := VStr "0.30" |}]
  ∧ (match _state imp' with
     | MeasureUKScaleBlockS ev (Some metadata) =>
         ev = event ∧ stations metadata = VStr "12"
     | _ => False
     end)
  ∧ VStr "5.20" ≠ VFloat (Dec 52 (-1))
  ∧ float "5.20" = Ok (Dec 52 (-1)).
Proof.
  intros imp imp' event.
  split; [run_sample|]. split; [run_sample|].
  split; [vm_compute; split; reflexivity|].
  split; [discriminate | run_sample].
Qed.

(** ** Further properties *)

(** *** Find-or-create *)

Section Keyed.
Context {O Q C : Type} `{EqDecision Q} (cls : model_class O Q C)
  (key : O → Q) (Hk : keyed cls key).

Lemma filter_by_key q l :
  List.filter (filter_by cls q) l = List.filter (λ o, bool_decide (key o = q)) l.
Proof.
  induction l as [|o l IH]; [done|]. simpl.
  by rewrite (keyed_filter _ _ Hk), IH.
Qed.

Lemma filter_nil_not_in q l :
  List.filter (filter_by cls q) l = [] → q ∉ key <$> l.
Proof.
  rewrite filter_by_key. induction l as [|o l IH]; simpl.
  - intros _. apply not_elem_of_nil.
  - destruct (decide (key o = q)) as [E|E].
    + by rewrite bool_decide_true.
    + rewrite bool_decide_false by done. intros H.
      rewrite elem_of_cons. intros [?|?]; [done | by apply IH].
Qed.

(** What [get_or_create] does, case by case. *)
Lemma get_or_create_spec q c cat cat' r :
  get_or_create cls q c cat = (cat', r) →
  stored cat' = stored cat
  ∧ calls cat' = calls cat ++ [GetOrCreate (describe cls q)]
  ∧ match r with
    | Ok (o, true) =>
        List.filter (filter_by cls q) (table cls (working cat)) = []
        ∧ o = construct cls q c
        ∧ table cls (working cat') = table cls (working cat) ++ [o]
    | Ok (o, false) =>
        working cat' = working cat
        ∧ head (List.filter (filter_by cls q) (table cls (working cat)))
          = Some o
    | Err e => e = IntegrityError ∧ working cat' = working cat
    end.
Proof.
  unfold get_or_create. cbv zeta. cbn [log violates calls working stored].
  destruct (violates cat _).
  { by intros [= <- <-]. }
  destruct (List.filter _ _) as [|found l] eqn:Hf.
  - intros [= <- <-]. cbn. by rewrite (keyed_table _ _ Hk).
  - by intros [= <- <-].
Qed.

Lemma NoDup_created q c l :
  List.filter (filter_by cls q) l = [] →
  NoDup (key <$> l) → NoDup (key <$> l ++ [construct cls q c]).
Proof.
  intros Hnil Hnd. rewrite fmap_app. simpl.
  rewrite (keyed_construct _ _ Hk).
  apply NoDup_app. split; [done|]. split; [|apply NoDup_singleton].
  intros x Hx ->%list_elem_of_singleton.
  by apply filter_nil_not_in in Hnil.
Qed.

(** X1: an object that a find-or-create found or created is found by the
    next find-or-create of the same key, whatever creation arguments
    come with it, unless the collaborator reports a conflict; that
    second call changes nothing but the trace. *)
Theorem get_or_create_again q c c' cat cat1 o created :
  get_or_create cls q c cat = (cat1, Ok (o, created)) →
  violates cat1 (calls cat1 ++ [GetOrCreate (describe cls q)]) = false →
  get_or_create cls q c' cat1
  = (log (GetOrCreate (describe cls q)) cat1, Ok (o, false)).
Proof.
  intros H1 Hv.
  destruct (get_or_create_spec _ _ _ _ _ H1) as (_ & _ & Hr).
  unfold get_or_create. cbv zeta. cbn [log violates calls working].
  rewrite Hv.
  destruct created.
  - destruct Hr as (Hnil & -> & ->).
    rewrite List.filter_app, Hnil. simpl.
    rewrite (keyed_filter _ _ Hk), (keyed_construct _ _ Hk).
    by rewrite bool_decide_true.
  - destruct Hr as (-> & Hhd).
    by destruct (List.filter _ _) as [|found l]; simplify_eq/=.
Qed.

(** X2: a find-or-create keeps the natural keys of its table unique. *)
Theorem get_or_create_unique q c cat :
  NoDup (key <$> table cls (working cat)) →
  NoDup (key <$> table cls (working (get_or_create cls q c cat).1)).
Proof.
  intros Hnd.
  destruct (get_or_create cls q c cat) as [cat' r] eqn:Hg.
  destruct (get_or_create_spec _ _ _ _ _ Hg) as (_ & _ & Hr). simpl.
  destruct r as [[o []]|e].
  - destruct Hr as (Hnil & -> & ->). by apply NoDup_created.
  - by destruct Hr as (-> & _).
  - by destruct Hr as (_ & ->).
Qed.
End Keyed.

Lemma EventSourceC_keyed : keyed EventSourceC es_name.
Proof. by split. Qed.
Lemma AgencyC_keyed : keyed AgencyC id.
Proof. by split. Qed.
Lemma EventC_keyed : keyed EventC ev_key.
Proof. by split. Qed.
Lemma OriginC_keyed : keyed OriginC or_key.
Proof. by split. Qed.
Lemma MagnitudeMeasureC_keyed : keyed MagnitudeMeasureC mm_key.
Proof. by split. Qed.

Lemma get_or_create_again_witness :
  let cat := Sample.empty_catalogue in
  let k := {| source_key := "NEIC"; eventsource := Sample.isc |} in
  let cat1 := (get_or_create AgencyC k tt cat).1 in
  get_or_create AgencyC k tt cat1
  = (log (GetOrCreate (QAgency k)) cat1, Ok (k, false)).
Proof.
  intros cat k cat1.
  apply (get_or_create_again AgencyC id AgencyC_keyed k tt tt cat cat1 k true);
    reflexivity.
Defined.

Lemma get_or_create_unique_witness :
  let k := {| source_key := "NEIC"; eventsource := Sample.isc |} in
  NoDup (id <$> tbl_agencies
           (working (get_or_create AgencyC k tt Sample.empty_catalogue).1)).
Proof.
  intros k.
  apply (get_or_create_unique AgencyC id AgencyC_keyed k tt
           Sample.empty_catalogue).
  apply NoDup_nil_2.
Defined.

(** *** Unique natural keys, through a run *)

Global Instance keeps_unique_preorder : PreOrder keeps_unique.
Proof.
  split; [intros a Ha; exact Ha | intros a b c H1 H2].
  unfold keeps_unique in *. auto.
Qed.

Ltac created_keeps_unique keyed_lemma q c :=
  let Hw := fresh "Hw" in
  let Hs := fresh "Hs" in
  let Hf := fresh "Hf" in
  unfold keeps_unique, catalogue_unique; cbn [_catalogue set_catalogue];
  intros [Hw Hs]; unfold get_or_create; cbv zeta;
  cbn [log violates calls working stored];
  destruct (violates _ _); [by split|];
  destruct (List.filter _ _) as [|? ?] eqn:Hf; [|by split];
  split; [|exact Hs];
  destruct Hw as (H1 & H2 & H3 & H4 & H5);
  repeat split; try done; cbn;
  by apply (NoDup_created _ _ keyed_lemma q c).

Lemma keeps_unique_eventsource q c imp :
  keeps_unique imp
    (set_catalogue (get_or_create EventSourceC q c (_catalogue imp)).1 imp).
Proof. created_keeps_unique EventSourceC_keyed q c. Qed.

Lemma keeps_unique_agency q c imp :
  keeps_unique imp
    (set_catalogue (get_or_create AgencyC q c (_catalogue imp)).1 imp).
Proof.
  unfold keeps_unique, catalogue_unique; cbn [_catalogue set_catalogue];
  intros [Hw Hs]; unfold get_or_create; cbv zeta;
  cbn [log violates calls working stored];
  destruct (violates _ _); [by split|];
  destruct (List.filter _ _) as [|? ?] eqn:Hf; [|by split];
  split; [|exact Hs];
  destruct Hw as (H1 & H2 & H3 & H4 & H5);
  repeat split; try done; cbn.
  rewrite <-(list_fmap_id (tbl_agencies _ ++ _)).
  apply (NoDup_created _ _ AgencyC_keyed q c); [done|].
  by rewrite list_fmap_id.
Qed.

Lemma keeps_unique_event q c imp :
  keeps_unique imp
    (set_catalogue (get_or_create EventC q c (_catalogue imp)).1 imp).
Proof. created_keeps_unique EventC_keyed q c. Qed.

Lemma keeps_unique_origin q c imp :
  keeps_unique imp
    (set_catalogue (get_or_create OriginC q c (_catalogue imp)).1 imp).
Proof. created_keeps_unique OriginC_keyed q c. Qed.

Lemma keeps_unique_measure q c imp :
  keeps_unique imp
    (set_catalogue (get_or_create MagnitudeMeasureC q c (_catalogue imp)).1
       imp).
Proof. created_keeps_unique MagnitudeMeasureC_keyed q c. Qed.

Lemma keeps_unique_rename_event k name imp :
  keeps_unique imp
    (set_catalogue (rename_event k name (_catalogue imp)) imp).
Proof.
  unfold keeps_unique, catalogue_unique.
  intros [(H1 & H2 & H3 & H4 & H5) Hs]. split; [|exact Hs].
  repeat split; try done. cbn.
  rewrite <-list_fmap_compose.
  erewrite list_fmap_ext; [exact H3|].
  intros i e _. simpl. by case_bool_decide.
Qed.

Lemma keeps_unique_set_origin_block a o m imp :
  keeps_unique imp (set_origin_block a o m imp).
Proof.
  unfold set_origin_block, keeps_unique.
  destruct (_state imp); intros H; exact H.
Qed.

#[export] Hint Resolve keeps_unique_eventsource keeps_unique_agency
  keeps_unique_event keeps_unique_origin keeps_unique_measure
  keeps_unique_rename_event keeps_unique_set_origin_block : isf.
#[export] Hint Extern 1 (keeps_unique _ _) =>
  (let H := fresh in intros H; exact H) : isf.

Lemma process_line_keeps_unique line :
  preserves keeps_unique (process_line line).
Proof.
  unfold process_line. apply preserves_bind; [apply preserves_get|].
  intros imp0.
  destruct (_state imp0) as [|es ev|ev|event a o m|ev m|event m|event m].
  - unfold StartState_process_line. frame.
  - unfold EventState_process_line. frame.
  - frame.
  - unfold OriginBlockState_process_line. frame.
  - frame.
  - unfold MeasureBlockState_process_line. frame.
  - unfold MeasureUKScaleBlockState_process_line. frame.
Qed.

Lemma try_decode_keeps_unique lt line :
  preserves keeps_unique (try_decode lt line).
Proof.
  unfold try_decode.
  apply preserves_bind; [unfold transition_rule; frame | intros next_state].
  apply preserves_bind; [| intros _; apply process_line_keeps_unique].
  apply preserves_modify. auto with isf.
Qed.

Lemma keeps_unique_rollback imp :
  keeps_unique imp (set_catalogue (rollback (_catalogue imp)) imp).
Proof. unfold keeps_unique, catalogue_unique. by intros [_ Hs]. Qed.

Lemma store_line_keeps_unique aj n line :
  preserves keeps_unique (store_line aj n line).
Proof.
  intros imp. rewrite store_line_unfold. cbv zeta.
  pose proof (try_decode_keeps_unique
                (_detect_line_type imp (PyStr.strip line))
                (PyStr.strip line) imp) as Hd.
  destruct (_detect_line_type imp (PyStr.strip line)); try reflexivity;
    destruct (try_decode _ _ imp) as [imp1 [out|e]]; simpl in *;
    try exact Hd;
    destruct e; simpl; try exact Hd;
    try (etrans; [exact Hd | apply keeps_unique_rollback]);
    try (destruct (_ && _ && aj); simpl;
         [exact Hd | etrans; [exact Hd | apply keeps_unique_rollback]]).
Qed.

(** X3: [store] keeps natural keys unique: run on a catalogue in which
    no two objects of a class share their natural key, neither in what
    is stored nor in what is held provisionally, it leaves such a
    catalogue, whether it returns or raises. *)
Theorem store_keeps_keys_unique allow_junk lines imp :
  catalogue_unique (_catalogue imp) →
  catalogue_unique (_catalogue (store allow_junk lines imp).1).
Proof.
  assert (∀ n, preserves keeps_unique (store_loop allow_junk n lines)) as Hl.
  { induction lines as [|line rest IH]; intros n.
    - apply preserves_ret.
    - simpl. apply preserves_bind; [apply store_line_keeps_unique|].
      intros []; [apply IH | apply preserves_ret]. }
  intros Hu. specialize (Hl 1%nat imp Hu). unfold store, mbind.
  destruct (store_loop allow_junk 1 lines imp) as [imp1 [[]|e]]; simpl in *;
    [|done].
  by destruct Hl as [Hw _].
Qed.

Lemma store_keeps_keys_unique_witness :
  catalogue_unique
    (_catalogue
       (store true (Sample.block1 ++ Sample.invalid_line :: Sample.block2)
          (init Sample.empty_catalogue)).1).
Proof.
  apply store_keeps_keys_unique.
  split; repeat split; apply NoDup_nil_2.
Defined.

(** *** The loop as a whole *)

(** X4: [store] commits all or nothing. When it returns, the summary
    is the importer's, the catalogue was asked to commit exactly once,
    as the last thing, and what is stored is what was held
    provisionally; when it raises, the catalogue was never asked to
    commit and what is stored is what was stored before. *)
Theorem store_commits_once_or_never allow_junk lines imp :
  let imp' := (store allow_junk lines imp).1 in
  match (store allow_junk lines imp).2 with
  | Ok summary =>
      summary = _summary imp'
      ∧ stored (_catalogue imp') = working (_catalogue imp')
      ∧ ∃ cs, calls (_catalogue imp') = calls (_catalogue imp) ++ cs ++ [Commit]
              ∧ Commit ∉ cs
  | Err _ =>
      stored (_catalogue imp') = stored (_catalogue imp)
      ∧ ∃ cs, calls (_catalogue imp') = calls (_catalogue imp) ++ cs
              ∧ Commit ∉ cs
  end.
Proof.
  pose proof (store_loop_loops allow_junk lines 1 imp)
    as [Hst _ (cs & Hcs & Hno) _ _ _ _].
  unfold store, mbind.
  destruct (store_loop allow_junk 1 lines imp) as [imp1 [[]|e]]; simpl in *.
  - split; [done|]. split; [done|]. exists cs.
    by rewrite Hcs, <-app_assoc.
  - split; [done|]. by exists cs.
Qed.

(** X5: the loop stops at a [STOP] line: whatever follows it in the
    stream is never read, and [store] does the same with or without
    it. *)
Theorem nothing_is_read_after_stop allow_junk pre line rest imp :
  PyStr.strip line = "STOP" →
  store allow_junk (pre ++ line :: rest) imp
  = store allow_junk (pre ++ [line]) imp.
Proof.
  intros Hstop.
  assert (∀ n imp, store_line allow_junk n line imp = (imp, Ok Break)) as Hl.
  { intros n i. rewrite store_line_unfold. cbv zeta.
    unfold _detect_line_type. by rewrite Hstop. }
  assert (∀ n imp,
            store_loop allow_junk n (pre ++ line :: rest) imp
            = store_loop allow_junk n (pre ++ [line]) imp) as Hloop.
  { induction pre as [|l pre IH]; intros n i; simpl.
    - unfold mbind. by rewrite Hl.
    - unfold mbind.
      destruct (store_line allow_junk n l i) as [i' [[]|e]]; [apply IH|done..]. }
  unfold store, mbind. by rewrite Hloop.
Qed.

Lemma nothing_is_read_after_stop_witness :
  store true (Sample.block1 ++ "STOP  " :: Sample.block2)
    (init Sample.empty_catalogue)
  = store true (Sample.block1 ++ ["STOP  "]) (init Sample.empty_catalogue).
Proof.
  apply (nothing_is_read_after_stop true Sample.block1 "STOP  " Sample.block2).
  reflexivity.
Defined.

(** X6: a line that is blank once stripped, or that the comment
    pattern matches once stripped, is passed over: the turn of the loop
    leaves the importer exactly as it was, in every state, and goes on
    with the next line. *)
Theorem comments_are_passed_over allow_junk n line imp :
  PyStr.strip line = "" ∨ comment_shape (PyStr.strip line) →
  store_line allow_junk n line imp = (imp, Ok Continue).
Proof.
  intros H. rewrite store_line_unfold. cbv zeta.
  assert (_detect_line_type imp (PyStr.strip line) = comment) as ->; [|done].
  unfold _detect_line_type. generalize dependent (PyStr.strip line).
  intros l [H|H].
  - rewrite H. reflexivity.
  - apply comment_regexp_spec in H as Hm. rewrite Hm.
    destruct H as (c & d & body & rest & E & _).
    rewrite !bool_decide_false by (rewrite E; discriminate). done.
Qed.

Lemma comments_are_passed_over_witness :
  let imp :=
    (store_loop true 1 Sample.block1 (init Sample.empty_catalogue)).1 in
  store_line true 8 "  (#PRIME hypocentre)  " imp = (imp, Ok Continue)
  ∧ store_line true 8 "   " imp = (imp, Ok Continue).
Proof.
  intros imp. split.
  - apply comments_are_passed_over. right.
    exists "#"%char, "P"%char, "RIME hypocentre", "".
    split; [reflexivity|]. split; [discriminate|].
    repeat split; discriminate.
  - apply comments_are_passed_over. by left.
Defined.

(** *** What the classifier tells *)

(** X7: the line type is sound for the line: a catalogue header is
    the exact banner and a stop the exact word; a header or an event
    line matches its pattern; an origin block has exactly 136
    characters and a measure block exactly 38, and neither is ever
    detected while the state can start a catalogue; a comment is blank
    or matches the comment pattern. *)
Theorem line_type_is_sound imp line :
  line_type_sound imp line (_detect_line_type imp line).
Proof.
  unfold _detect_line_type.
  repeat match goal with
    | |- context [bool_decide ?P] =>
        destruct (decide P);
        [rewrite (bool_decide_true P) by done
        |rewrite (bool_decide_false P) by done]
    | |- context [matches ?r line] => destruct (matches r line) eqn:?
    | |- context [is_start ?a ?b] => destruct (is_start a b) eqn:?
    end; simpl; try done; try (by left); try (right; by apply comment_regexp_spec).
Qed.

(** *** What decoding may raise *)

Lemma fails_ok {A} P (a : A) : fails_only P (Ok a).
Proof. by intros e. Qed.

Lemma fails_err {A} (P : exn → Prop) e : P e → fails_only (A := A) P (Err e).
Proof. by intros H e' [= <-]. Qed.

Lemma fails_bind {A B} P (r : res A) (f : A → res B) :
  fails_only P r → (∀ a, fails_only P (f a)) → fails_only P (bind r f).
Proof.
  intros Hr Hf e. destruct r as [a|e']; simpl; [apply Hf|].
  intros [= <-]. by apply Hr.
Qed.

Lemma fails_float s : fails_only (λ e, e = ValueError) (float s).
Proof.
  intros e. unfold float.
  repeat match goal with
    | |- context [let '(_, _) := ?x in _] => destruct x
    | |- context [match ?x with _ => _ end] => destruct x
    end; congruence.
Qed.

Lemma fails_int s : fails_only (λ e, e = ValueError) (int s).
Proof.
  intros e. unfold int.
  repeat match goal with
    | |- context [let '(_, _) := ?x in _] => destruct x
    | |- context [match ?x with _ => _ end] => destruct x
    end; congruence.
Qed.

Lemma fails_weaken {A} (P Q : exn → Prop) (r : res A) :
  (∀ e, P e → Q e) → fails_only P r → fails_only Q r.
Proof. intros H Hr e He. by apply H, Hr. Qed.

Lemma value_error_is_column_failure e : e = ValueError → column_failure e.
Proof. intros ->. by repeat constructor. Qed.

Lemma fails_unless_blank {A} P (conv : string → res A) s :
  fails_only P (conv s) → fails_only P (unless_blank conv s).
Proof.
  intros H. unfold unless_blank. case_bool_decide; [apply fails_ok|].
  apply fails_bind; [done | intros a; apply fails_ok].
Qed.

Lemma get_lt_is_Some s :
  ∀ i, (i < String.length s)%nat → is_Some (String.get i s).
Proof.
  induction s as [|c s IH]; intros [|i] H; simpl in *; try lia; [by eexists|].
  apply IH. lia.
Qed.

Lemma fails_char_at P i line :
  (i < String.length line)%nat → fails_only P (char_at i line).
Proof.
  intros H. unfold char_at, PyStr.index.
  destruct (get_lt_is_Some line i H) as [c ->]. apply fails_ok.
Qed.

Lemma fails_ints l : fails_only (λ e, e = ValueError) (ints l).
Proof.
  induction l as [|d l IH]; [apply fails_ok|]. simpl.
  apply fails_bind; [apply fails_int | intros z].
  apply fails_bind; [apply IH | intros zs; apply fails_ok].
Qed.

Lemma fails_make_datetime l : fails_only column_failure (make_datetime l).
Proof.
  intros e. unfold make_datetime.
  repeat case_match; intros [= <-]; by repeat constructor.
Qed.

Ltac fails_step :=
  first
    [ apply fails_ok
    | apply fails_bind; [| intros ?]
    | apply fails_unless_blank
    | apply (fails_weaken _ _ _ value_error_is_column_failure), fails_float
    | apply (fails_weaken _ _ _ value_error_is_column_failure), fails_int
    | apply (fails_weaken _ _ _ value_error_is_column_failure), fails_ints
    | apply fails_make_datetime
    | apply fails_char_at; lia
    | match goal with
      | |- fails_only _ (if ?b then _ else _) => destruct b
      | |- fails_only _ (match ?x with _ => _ end) => destruct x
      | |- fails_only _ (let _ := _ in _) => cbv zeta
      end ].

Lemma fails_decode_origin line :
  String.length line = 136%nat →
  fails_only column_failure (decode_origin line).
Proof.
  intros Hlen. unfold decode_origin, _process_time. repeat fails_step.
Qed.

Lemma fails_getitem d key : fails_only column_failure (getitem d key).
Proof.
  unfold getitem. destruct (d !! key); [apply fails_ok|].
  apply fails_err. by repeat constructor.
Qed.

Lemma fails_decode_metadata line :
  String.length line = 136%nat →
  fails_only column_failure (decode_metadata line).
Proof.
  intros Hlen. unfold decode_metadata, coded.
  repeat first [fails_step | apply fails_getitem].
Qed.

Section Raises.
Context (P : Importer → exn → Prop).

Lemma raises_ret {A} (a : A) : raises_only P (ret a).
Proof. by intros imp imp' e. Qed.

Lemma raises_get : raises_only P get.
Proof. by intros imp imp' e. Qed.

Lemma raises_modify f : raises_only P (modify f).
Proof. by intros imp imp' e. Qed.

Lemma raises_raise {A} e : (∀ imp, P imp e) → raises_only P (raise (A := A) e).
Proof. intros H imp imp' e' [= <- <-]. apply H. Qed.

Lemma raises_lift {A} (Q : exn → Prop) (r : res A) :
  (∀ imp e, Q e → P imp e) → fails_only Q r → raises_only P (lift r).
Proof. intros H Hr imp imp' e [= <- ->]. by apply H, Hr. Qed.

Lemma raises_bind {A B} (m : M A) (k : A → M B) :
  raises_only P m → (∀ a, raises_only P (k a)) → raises_only P (mbind m k).
Proof.
  intros Hm Hk imp imp' e. unfold mbind.
  destruct (m imp) as [imp1 [a|e1]] eqn:E.
  - apply Hk.
  - intros [= <- <-]. by eapply Hm.
Qed.
End Raises.

Ltac not_among H :=
  repeat (apply elem_of_cons in H as [H|H]; [discriminate H|]);
  by apply elem_of_nil in H.

Ltac among H :=
  repeat (apply elem_of_cons in H as [H|H];
          [rewrite H; by repeat constructor|]);
  by apply elem_of_nil in H.

Lemma column_failure_decode_failure imp e :
  column_failure e → decode_failure imp e.
Proof.
  unfold column_failure, decode_failure. intros H. split.
  - among H.
  - intros ->. not_among H.
Qed.

Lemma decode_failure_plain imp e :
  e ∈ [UnexpectedLine; ValueError; AssertionError; KeyError; TypeError;
       OverflowError] →
  decode_failure imp e.
Proof.
  intros H. split; [among H|]. intros ->. not_among H.
Qed.

Lemma raises_get_or_create {O Q C} (cls : model_class O Q C) q c :
  raises_only decode_failure (on_catalogue (get_or_create cls q c)).
Proof.
  intros imp imp' e. unfold on_catalogue, get_or_create. cbv zeta.
  cbn [log violates calls working].
  destruct (violates _ _) eqn:Hv.
  - intros [= <- <-]. split; [by repeat constructor|]. intros _. exact Hv.
  - by destruct (List.filter _ _).
Qed.

Ltac raises_step :=
  first
    [ apply raises_ret
    | apply raises_get
    | apply raises_modify
    | apply raises_get_or_create
    | apply raises_raise; intros ?; apply decode_failure_plain;
      by repeat constructor
    | apply raises_bind; [| intros ?]
    | match goal with
      | |- raises_only _ (match ?x with _ => _ end) => destruct x
      | |- raises_only _ (if ?b then _ else _) => destruct b
      | |- raises_only _ (let _ := _ in _) => cbv zeta
      end ].

Lemma raises_lift_columns {A} (r : res A) :
  fails_only column_failure r → raises_only decode_failure (lift r).
Proof. apply raises_lift. intros imp e. apply column_failure_decode_failure. Qed.

Lemma StartState_process_line_raises line :
  raises_only decode_failure (StartState_process_line line).
Proof. unfold StartState_process_line. repeat raises_step. Qed.

Lemma EventState_process_line_raises es line :
  is_Some (EventState_match line) →
  raises_only decode_failure (EventState_process_line es line).
Proof.
  intros [g Hg]. unfold EventState_process_line. rewrite Hg.
  unfold _save_event. repeat raises_step.
Qed.

Lemma OriginBlockState_process_line_raises event line :
  String.length line = 136%nat →
  raises_only decode_failure (OriginBlockState_process_line event line).
Proof.
  intros Hlen.
  unfold OriginBlockState_process_line, _process_agency, _save_agency,
    _process_origin, _save_origin, _process_metadata.
  repeat first
    [ raises_step
    | apply raises_lift_columns, fails_decode_origin; exact Hlen
    | apply raises_lift_columns, fails_decode_metadata; exact Hlen ].
Qed.

Lemma _save_measure_raises event agency_name key scale v e :
  raises_only decode_failure (_save_measure event agency_name key scale v e).
Proof. unfold _save_measure. repeat raises_step. Qed.

Lemma set_metadata_stations_raises v :
  raises_only decode_failure (set_metadata_stations v).
Proof. unfold set_metadata_stations. repeat raises_step. Qed.

Lemma MeasureBlockState_process_line_raises event line :
  String.length line = 38%nat →
  raises_only decode_failure (MeasureBlockState_process_line event line).
Proof.
  intros Hlen. unfold MeasureBlockState_process_line.
  repeat first
    [ apply _save_measure_raises
    | apply set_metadata_stations_raises
    | raises_step
    | apply raises_lift_columns; repeat fails_step ].
Qed.

Lemma MeasureUKScaleBlockState_process_line_raises event line :
  is_Some (MeasureUKScaleBlockState_match line) →
  raises_only decode_failure
    (MeasureUKScaleBlockState_process_line event line).
Proof.
  intros [g Hg]. unfold MeasureUKScaleBlockState_process_line. rewrite Hg.
  repeat first
    [ apply _save_measure_raises
    | apply set_metadata_stations_raises
    | raises_step ].
Qed.

(** The line type that leads to each state. *)
Lemma next_state_line_type initial st lt st' :
  _get_next_state initial st lt = Some st' →
  match st' with
  | StartS => lt = catalogue_header
  | EventS _ _ => lt = event_header
  | OriginHeaderS _ => lt = origin_header
  | OriginBlockS _ _ _ _ => lt = origin_block
  | MeasureHeaderS _ _ => lt = measure_header
  | MeasureBlockS _ _ => lt = measure_block
  | MeasureUKScaleBlockS _ _ => lt = measure_unknown_scale_block
  end.
Proof.
  destruct st as [|? []| | | | |], lt; simpl;
    try destruct (ss_eventsource initial); intros [= <-]; done.
Qed.

Lemma detected_line_fits imp line :
  match _detect_line_type imp line with
  | event_header => is_Some (EventState_match line)
  | origin_block => PyStr.len line = 136%nat
  | measure_block => PyStr.len line = 38%nat
  | measure_unknown_scale_block =>
      is_Some (MeasureUKScaleBlockState_match line)
  | _ => True
  end.
Proof.
  unfold _detect_line_type.
  repeat match goal with
    | |- context [bool_decide ?P] =>
        destruct (decide P);
        [rewrite (bool_decide_true P) by done
        |rewrite (bool_decide_false P) by done]
    | |- context [matches ?r line] => destruct (matches r line) eqn:?
    | |- context [is_start ?a ?b] => destruct (is_start a b) eqn:?
    end; simpl; done.
Qed.

Lemma try_decode_raises imp line imp' e :
  try_decode (_detect_line_type imp line) line imp = (imp', Err e) →
  decode_failure imp' e.
Proof.
  pose proof (detected_line_fits imp line) as Hsound.
  destruct (_get_next_state (_initial imp) (_state imp)
              (_detect_line_type imp line)) as [st|] eqn:Hn.
  - rewrite (try_decode_valid _ _ _ _ Hn).
    apply next_state_line_type in Hn.
    unfold process_line, mbind, get. cbn [_state set_state].
    destruct st; rewrite Hn in Hsound; simpl in Hsound.
    + apply StartState_process_line_raises.
    + by apply EventState_process_line_raises.
    + done.
    + apply OriginBlockState_process_line_raises. apply Hsound.
    + done.
    + apply MeasureBlockState_process_line_raises. apply Hsound.
    + by apply MeasureUKScaleBlockState_process_line_raises.
  - rewrite (try_decode_invalid _ _ _ Hn). intros [= <- <-].
    apply decode_failure_plain. by repeat constructor.
Qed.

Lemma store_line_raises aj n line imp imp' e :
  store_line aj n line imp = (imp', Err e) →
  e ∈ [AssertionError; KeyError; TypeError; OverflowError]
  ∨ (e = ParsingFailure n
     ∧ ∃ imp1, imp' = aborted imp1 ∧ conflict_reported imp1).
Proof.
  rewrite store_line_unfold. cbv zeta.
  pose proof (try_decode_raises imp (PyStr.strip line)) as Hr.
  destruct (_detect_line_type imp (PyStr.strip line)); try done;
    destruct (try_decode _ _ imp) as [imp1 [out|e1]]; try done;
    specialize (Hr imp1 e1 eq_refl); destruct Hr as [Hin Hc];
    (destruct e1; try (by destruct (_ && _ && aj)); try (by not_among Hin);
     intros [= <- <-];
     first [ left; by repeat constructor
           | right; split; [done|]; exists imp1; split; [done|]; by apply Hc ]).
Qed.

(** X8: what [store] may raise. It raises nothing but a parsing
    failure, an assertion error, a key error, a type error or an
    overflow error; unexpected lines, value errors and integrity errors
    never reach the caller, and no line is ever indexed out of its
    bounds. A parsing failure carries the number of a line of the
    stream, and is raised only when the last thing asked of the
    catalogue before the rollback was met with a conflict. *)
Theorem store_raises_only allow_junk lines imp imp' e :
  store allow_junk lines imp = (imp', Err e) →
  e ∈ [AssertionError; KeyError; TypeError; OverflowError]
  ∨ ∃ n cs,
      e = ParsingFailure n ∧ (1 ≤ n ≤ length lines)%nat
      ∧ calls (_catalogue imp') = cs ++ [Rollback]
      ∧ violates (_catalogue imp') cs = true.
Proof.
  assert (∀ lines n0 imp,
            store_loop allow_junk n0 lines imp = (imp', Err e) →
            e ∈ [AssertionError; KeyError; TypeError; OverflowError]
            ∨ ∃ n cs,
                e = ParsingFailure n ∧ (n0 ≤ n < n0 + length lines)%nat
                ∧ calls (_catalogue imp') = cs ++ [Rollback]
                ∧ violates (_catalogue imp') cs = true) as Hloop.
  { clear lines imp. induction lines as [|line rest IH]; intros n0 imp.
    - done.
    - simpl. unfold mbind.
      destruct (store_line allow_junk n0 line imp) as [imp1 [[]|e1]] eqn:Hl.
      + intros H. destruct (IH _ _ H) as [?|(n & cs & ? & ? & ?)]; [by left|].
        right. exists n, cs. split; [done|]. split; [lia|done].
      + done.
      + intros [= <- <-].
        destruct (store_line_raises _ _ _ _ _ _ Hl)
          as [?|(-> & imp2 & -> & Hc)]; [by left|].
        right. exists n0, (calls (_catalogue imp2)).
        split; [done|]. split; [lia|]. by split. }
  unfold store, mbind.
  destruct (store_loop allow_junk 1 lines imp) as [imp1 [[]|e1]] eqn:Hl;
    [done|].
  intros [= <- <-].
  destruct (Hloop _ _ _ Hl) as [?|(n & cs & ? & ? & ?)]; [by left|].
  right. exists n, cs. split; [done|]. split; [lia|done].
Qed.

Lemma store_raises_only_witness :
  let run := store true Sample.block1 (init (Sample.conflict_at 6)) in
  run.2 ∈ [Err AssertionError; Err KeyError; Err TypeError;
           Err OverflowError]
  ∨ ∃ n cs,
      run.2 = Err (ParsingFailure n) ∧ (1 ≤ n ≤ 7)%nat
      ∧ calls (_catalogue run.1) = cs ++ [Rollback]
      ∧ violates (_catalogue run.1) cs = true.
Proof.
  intros run.
  assert (store true Sample.block1 (init (Sample.conflict_at 6))
          = (run.1, Err (ParsingFailure 7))) as H by (vm_compute; reflexivity).
  destruct (store_raises_only _ _ _ _ _ H) as [Hin|(n & cs & ? & ? & ? & ?)].
  - left. rewrite !elem_of_cons in Hin.
    destruct Hin as [?|[?|[?|[?|Hnil]]]]; try discriminate.
    by apply elem_of_nil in Hnil.
  - right. exists n, cs. split; [|done].
    unfold run. rewrite H. simpl. by f_equal.
Defined.

(** *** Parse errors and rollbacks *)

Lemma rollbacks_app cs1 cs2 :
  rollbacks (cs1 ++ cs2) = (rollbacks cs1 + rollbacks cs2)%nat.
Proof. unfold rollbacks. by rewrite List.filter_app, length_app. Qed.

Lemma rollbacks_get_or_create cs :
  Forall is_get_or_create cs → rollbacks cs = 0%nat.
Proof.
  unfold rollbacks. induction 1 as [|c cs Hc _ IH]; [done|].
  simpl. by destruct c.
Qed.

Lemma store_line_errors_rollbacks aj n line imp :
  let imp' := (store_line aj n line imp).1 in
  ∃ ns cs,
    ERRORS (_summary imp') = ERRORS (_summary imp) ++ (ParsingFailure <$> ns)
    ∧ (ns = [] ∨ ns = [n])
    ∧ calls (_catalogue imp') = calls (_catalogue imp) ++ cs
    ∧ rollbacks cs
      = (length ns + ended_in_parsing_failure (store_line aj n line imp).2)%nat.
Proof.
  rewrite store_line_unfold. cbv zeta.
  pose proof (try_decode_raises imp (PyStr.strip line)) as Hr.
  pose proof (try_decode_decodes
                (_detect_line_type imp (PyStr.strip line))
                (PyStr.strip line) imp) as [_ _ (cs & Hcs & Hf) _ _ _ Hsum].
  apply rollbacks_get_or_create in Hf.
  assert (∃ ns cs0,
            ERRORS (_summary imp) = ERRORS (_summary imp)
                                    ++ (ParsingFailure <$> ns)
            ∧ (ns = [] ∨ ns = [n])
            ∧ calls (_catalogue imp) = calls (_catalogue imp) ++ cs0
            ∧ rollbacks cs0 = (length ns + 0)%nat) as Hsame.
  { exists [], []. simpl. by rewrite !app_nil_r; auto. }
  destruct (_detect_line_type imp (PyStr.strip line)); try exact Hsame;
    destruct (try_decode _ _ imp) as [imp1 [out|e1]]; simpl in *;
    try (exists [], cs; simpl; rewrite Hsum, app_nil_r; by auto);
    specialize (Hr imp1 e1 eq_refl); destruct Hr as [Hin _];
    (destruct e1; try (by not_among Hin);
     try (exists [], cs; simpl; rewrite Hsum, app_nil_r; by auto);
     try (exists [], (cs ++ [Rollback]); simpl;
          rewrite Hsum, app_nil_r, Hcs, rollbacks_app, Hf, <-app_assoc;
          by auto);
     (destruct (_ && _ && aj); simpl;
      [ exists [], cs; simpl; rewrite Hsum, app_nil_r; by auto
      | exists [n], (cs ++ [Rollback]); simpl;
        rewrite Hsum, Hcs, rollbacks_app, Hf, <-app_assoc; by auto ])).
Qed.

(** X9: the parse errors a run of the loop records are parsing
    failures of lines of the stream, in the order of the lines and at
    most one for a line; and the catalogue is asked to roll back once
    for each of them, and once more when the run ends in a parsing
    failure, and at no other time. *)
Theorem errors_and_rollbacks allow_junk lines :
  ∀ n imp,
    let imp' := (store_loop allow_junk n lines imp).1 in
    ∃ ns cs,
      ERRORS (_summary imp')
      = ERRORS (_summary imp) ++ (ParsingFailure <$> ns)
      ∧ StronglySorted lt ns
      ∧ Forall (λ k, n ≤ k < n + length lines)%nat ns
      ∧ calls (_catalogue imp') = calls (_catalogue imp) ++ cs
      ∧ rollbacks cs
        = (length ns
           + ended_in_parsing_failure (store_loop allow_junk n lines imp).2)%nat.
Proof.
  induction lines as [|line rest IH]; intros n imp; cbv zeta.
  - exists [], []. simpl. rewrite !app_nil_r.
    repeat split; auto; constructor.
  - simpl. unfold mbind.
    destruct (store_line_errors_rollbacks allow_junk n line imp)
      as (ns1 & cs1 & He1 & Hn1 & Hc1 & Hr1).
    destruct (store_line allow_junk n line imp) as [imp1 [[]|e1]];
      simpl in He1, Hc1, Hr1.
    + destruct (IH (S n) imp1) as (ns2 & cs2 & He2 & Hs2 & Hf2 & Hc2 & Hr2).
      exists (ns1 ++ ns2), (cs1 ++ cs2).
      rewrite He2, He1, Hc2, Hc1, fmap_app, <-!app_assoc, rollbacks_app,
        length_app, Hr1, Hr2.
      repeat split; try done; try lia.
      * destruct Hn1 as [->| ->]; [done|]. simpl. constructor; [done|].
        eapply Forall_impl; [exact Hf2|]. simpl. lia.
      * apply Forall_app. split.
        -- destruct Hn1 as [->| ->]; repeat constructor; lia.
        -- eapply Forall_impl; [exact Hf2|]. simpl. lia.
    + exists ns1, cs1. simpl. repeat split; try done.
      * destruct Hn1 as [->| ->]; repeat constructor.
      * destruct Hn1 as [->| ->]; repeat constructor; lia.
    + exists ns1, cs1. simpl. repeat split; try done.
      * destruct Hn1 as [->| ->]; repeat constructor.
      * destruct Hn1 as [->| ->]; repeat constructor; lia.
Qed.

(** *** Optional columns *)

Lemma unless_blank_blank {A} (conv : string → res A) s o :
  PyStr.strip s = "" → unless_blank conv s = Ok o → o = None.
Proof. unfold unless_blank. intros ->. simpl. congruence. Qed.

(** X10: the optional columns of an origin line. Whenever the line
    decodes, a fixed time (an [f] in column 22) gives no time error
    whatever columns 24 to 28 hold, a fixed position (column 54) gives
    neither axis of the error ellipse, a fixed depth (column 76) gives
    no depth error; and each optional column that is blank gives an
    absent value. *)
Theorem origin_optional_columns line d :
  decode_origin line = Ok d →
  (PyStr.index 22 line = Some "f"%char → time_error d = None)
  ∧ (PyStr.index 54 line = Some "f"%char →
     semi_major_90error d = None ∧ semi_minor_90error d = None)
  ∧ (PyStr.index 76 line = Some "f"%char → depth_error d = None)
  ∧ (PyStr.strip (PyStr.slice 24 29 line) = "" → time_error d = None)
  ∧ (PyStr.strip (PyStr.slice 30 35 line) = "" → time_rms d = None)
  ∧ (PyStr.strip (PyStr.slice 55 60 line) = "" → semi_major_90error d = None)
  ∧ (PyStr.strip (PyStr.slice 61 66 line) = "" → semi_minor_90error d = None)
  ∧ (PyStr.strip (PyStr.slice 71 76 line) = "" → depth d = None)
  ∧ (PyStr.strip (PyStr.slice 78 82 line) = "" → depth_error d = None)
  ∧ (PyStr.strip (PyStr.slice 93 96 line) = "" → azimuth_error d = None).
Proof.
  unfold decode_origin, char_at. intros H.
  destruct (_process_time line) as [t|] eqn:Et; [|discriminate H].
  cbn [bind] in H.
  destruct (PyStr.index 22 line) as [c22|] eqn:E22; [|discriminate H].
  cbn [bind] in H.
  destruct (if is_f c22 then Ok None
            else unless_blank float (PyStr.slice 24 29 line))
    as [te|] eqn:Ete; [|discriminate H].
  cbn [bind] in H.
  destruct (unless_blank float (PyStr.slice 30 35 line)) as [rms|] eqn:Erms;
    [|discriminate H].
  cbn [bind] in H.
  destruct (float (PyStr.slice 36 44 line)) as [lat|] eqn:Elat;
    [|discriminate H].
  cbn [bind] in H.
  destruct (float (PyStr.slice 45 54 line)) as [lng|] eqn:Elng;
    [|discriminate H].
  cbn [bind] in H.
  destruct (PyStr.index 54 line) as [c54|] eqn:E54; [|discriminate H].
  cbn [bind] in H. cbv zeta in H. cbn [fst snd] in H.
  match type of H with
  | bind ?x _ = _ => destruct x as [smaj|] eqn:Esmaj; [|discriminate H]
  end.
  cbn [bind] in H.
  match type of H with
  | bind ?x _ = _ => destruct x as [smin|] eqn:Esmin; [|discriminate H]
  end.
  cbn [bind] in H.
  destruct (unless_blank int (PyStr.slice 93 96 line)) as [az|] eqn:Eaz;
    [|discriminate H].
  cbn [bind] in H.
  destruct (unless_blank float (PyStr.slice 71 76 line)) as [dep|] eqn:Edep;
    [|discriminate H].
  cbn [bind] in H.
  destruct (PyStr.index 76 line) as [c76|] eqn:E76; [|discriminate H].
  cbn [bind] in H.
  match type of H with
  | bind ?x _ = _ => destruct x as [derr|] eqn:Ederr; [|discriminate H]
  end.
  cbn [bind] in H. injection H as <-. cbn.
  split_and!.
  - intros [= ->]. simpl in Ete. congruence.
  - intros [= ->]. simpl in Esmaj, Esmin. split; congruence.
  - intros [= ->]. simpl in Ederr. congruence.
  - intros Hb. destruct (is_f c22); [congruence|].
    exact (unless_blank_blank _ _ _ Hb Ete).
  - intros Hb. exact (unless_blank_blank _ _ _ Hb Erms).
  - intros Hb. rewrite Hb, orb_true_r in Esmaj. congruence.
  - intros Hb. rewrite Hb, orb_true_r in Esmin. congruence.
  - intros Hb. exact (unless_blank_blank _ _ _ Hb Edep).
  - intros Hb. rewrite Hb, orb_true_r in Ederr. congruence.
  - intros Hb. exact (unless_blank_blank _ _ _ Hb Eaz).
Qed.

Lemma origin_optional_columns_witness :
  ∃ d, decode_origin SampleMore.origin_fixed = Ok d
       ∧ time_error d = None ∧ depth d = None ∧ depth_error d = None
       ∧ semi_major_90error d = None.
Proof.
  destruct (decode_origin SampleMore.origin_fixed) as [d|] eqn:E;
    [|vm_compute in E; discriminate E].
  exists d.
  destruct (origin_optional_columns _ _ E)
    as (H22 & H54 & H76 & _ & _ & _ & _ & Hdepth & _).
  split; [done|]. split; [by apply H22|]. split; [by apply Hdepth|].
  split; [by apply H76 | by apply H54].
Defined.

Lemma coded_value d i line v :
  coded d i line = Ok (Some v) → ∃ code, d !! code = Some v.
Proof.
  unfold coded, char_at, getitem.
  destruct (PyStr.index i line) as [c|]; [|done]. simpl.
  case_bool_decide; [done|].
  destruct (d !! _) as [v'|] eqn:E; simpl; [|done].
  intros [= <-]. by eexists.
Qed.

(** X11: the vocabulary of the metadata. Whenever the metadata of an
    origin line decode, the analysis type is absent or one of
    automatic, manual and guess, the location method is absent or one
    of its four names, and the event type is absent exactly when its
    two columns are blank, and is otherwise the description of a known
    code or the description kept for unknown codes; an unknown event
    code never makes the line fail. *)
Theorem metadata_vocabulary line m :
  decode_metadata line = Ok m →
  (∀ a, analysis_type m = Some a → a ∈ ["automatic"; "manual"; "guess"])
  ∧ (∀ l, location_method m = Some l →
       l ∈ ["inversion"; "pattern recognition"; "ground truth"; "other"])
  ∧ (event_type m = None ↔ PyStr.strip (PyStr.slice 115 117 line) = "")
  ∧ (∀ t, event_type m = Some t →
       t = UNKNOWN_EVENT_TYPE_DESCRIPTION
       ∨ ∃ code, EVENT_TYPES !! code = Some t).
Proof.
  unfold decode_metadata. intros H.
  repeat match type of H with
    | bind ?x _ = Ok _ =>
        let E := fresh "E" in
        destruct x eqn:E; cbn [bind] in H; [|discriminate H]
    end.
  cbv zeta in H. injection H as <-.
  cbn [analysis_type location_method event_type].
  split_and!.
  - intros ty ->.
    match goal with
    | Hc : coded ANALYSIS_TYPES _ _ = _ |- _ =>
        apply coded_value in Hc as [code Hcode]
    end.
    apply elem_of_list_to_map_2 in Hcode.
    repeat (apply elem_of_cons in Hcode as [Hcode|Hcode];
            [injection Hcode as _ ->; by repeat constructor|]).
    by apply elem_of_nil in Hcode.
  - intros lm ->.
    match goal with
    | Hc : coded LOCATION_METHODS _ _ = _ |- _ =>
        apply coded_value in Hc as [code Hcode]
    end.
    apply elem_of_list_to_map_2 in Hcode.
    repeat (apply elem_of_cons in Hcode as [Hcode|Hcode];
            [injection Hcode as _ ->; by repeat constructor|]).
    by apply elem_of_nil in Hcode.
  - destruct (decide (PyStr.strip (PyStr.slice 115 117 line) = "")) as [Hb|Hb].
    + by rewrite bool_decide_true.
    + rewrite bool_decide_false by done. by split.
  - intros ty.
    destruct (decide (PyStr.strip (PyStr.slice 115 117 line) = "")) as [Hb|Hb];
      [by rewrite bool_decide_true|].
    rewrite bool_decide_false by done. intros [= <-].
    destruct (EVENT_TYPES !! _) as [v|] eqn:Hev; simpl; [|by left].
    right. by eexists.
Qed.

Lemma metadata_vocabulary_witness :
  ∃ m, decode_metadata Sample.origin1 = Ok m
       ∧ analysis_type m = Some "manual"
       ∧ "manual" ∈ ["automatic"; "manual"; "guess"]
       ∧ event_type m ≠ None.
Proof.
  destruct (decode_metadata Sample.origin1) as [m|] eqn:E;
    [|vm_compute in E; discriminate E].
  assert (analysis_type m = Some "manual") as Ha.
  { vm_compute in E. by injection E as <-. }
  exists m.
  destruct (metadata_vocabulary _ _ E) as (H1 & _ & H3 & _).
  split; [done|]. split; [done|]. split; [by apply H1|].
  intros Hn. apply H3 in Hn. vm_compute in Hn. discriminate Hn.
Defined.

(** *** The agency a measure is keyed by, through a run *)

Lemma length_substring_le s : ∀ a n, (String.length (String.substring a n s) ≤ n)%nat.
Proof.
  induction s as [|c s IH]; intros [|a] [|n]; simpl; try lia.
  - specialize (IH 0%nat n). lia.
  - apply (IH a 0%nat).
  - apply (IH a (S n)).
Qed.

Lemma length_lstrip_le s : (String.length (PyStr.lstrip s) ≤ String.length s)%nat.
Proof.
  induction s as [|c s IH]; simpl; [lia|].
  destruct (Ascii.is_space c); simpl; lia.
Qed.

Lemma length_rstrip_le s : (String.length (PyStr.rstrip s) ≤ String.length s)%nat.
Proof.
  induction s as [|c s IH]; simpl; [lia|].
  destruct (PyStr.rstrip s); simpl in *;
    [destruct (Ascii.is_space c); simpl; lia | lia].
Qed.

Lemma length_strip_slice a b line :
  (String.length (PyStr.strip (PyStr.slice a b line)) ≤ b - a)%nat.
Proof.
  unfold PyStr.strip, PyStr.slice.
  pose proof (length_rstrip_le (PyStr.lstrip (String.substring a (b - a) line))).
  pose proof (length_lstrip_le (String.substring a (b - a) line)).
  pose proof (length_substring_le line a (b - a)).
  lia.
Qed.

Global Instance keeps_plain_preorder : PreOrder keeps_plain.
Proof.
  split; [intros a Ha; exact Ha | intros a b c H1 H2].
  unfold keeps_plain in *. auto.
Qed.

Lemma keeps_plain_same_tables imp imp' :
  _context imp' = _context imp →
  tbl_measures (working (_catalogue imp'))
  = tbl_measures (working (_catalogue imp)) →
  stored (_catalogue imp') = stored (_catalogue imp) →
  keeps_plain imp imp'.
Proof.
  intros Hc Hw Hs (H1 & H2 & H3). unfold plain_agencies, keyed_by_agency.
  by rewrite Hc, Hw, Hs.
Qed.

Ltac other_class_keeps_plain :=
  apply keeps_plain_same_tables; [done| |];
  cbn [_catalogue set_catalogue]; unfold get_or_create; cbv zeta;
  cbn [log violates calls working stored];
  (destruct (violates _ _); [done|]);
  by destruct (List.filter _ _).

Lemma keeps_plain_eventsource q c imp :
  keeps_plain imp
    (set_catalogue (get_or_create EventSourceC q c (_catalogue imp)).1 imp).
Proof. other_class_keeps_plain. Qed.

Lemma keeps_plain_agency q c imp :
  keeps_plain imp
    (set_catalogue (get_or_create AgencyC q c (_catalogue imp)).1 imp).
Proof. other_class_keeps_plain. Qed.

Lemma keeps_plain_event q c imp :
  keeps_plain imp
    (set_catalogue (get_or_create EventC q c (_catalogue imp)).1 imp).
Proof. other_class_keeps_plain. Qed.

Lemma keeps_plain_origin q c imp :
  keeps_plain imp
    (set_catalogue (get_or_create OriginC q c (_catalogue imp)).1 imp).
Proof. other_class_keeps_plain. Qed.

Lemma keeps_plain_rename_event k name imp :
  keeps_plain imp (set_catalogue (rename_event k name (_catalogue imp)) imp).
Proof. by apply keeps_plain_same_tables. Qed.

Lemma keeps_plain_set_state s imp : keeps_plain imp (set_state s imp).
Proof. by apply keeps_plain_same_tables. Qed.

Lemma keeps_plain_set_initial i imp : keeps_plain imp (set_initial i imp).
Proof. by apply keeps_plain_same_tables. Qed.

Lemma keeps_plain_set_origin_block a o m imp :
  keeps_plain imp (set_origin_block a o m imp).
Proof.
  unfold set_origin_block.
  destruct (_state imp); by apply keeps_plain_same_tables.
Qed.

Lemma keeps_plain_insert_origin key (origin : NaturalKey) imp :
  keeps_plain imp
    (set_context
       {| agencies := agencies (_context imp);
          origins := <[key := origin]> (origins (_context imp)) |} imp).
Proof. by intros (H1 & H2 & H3). Qed.

Lemma keeps_plain_insert_author a b line (agency : Agency * bool) imp :
  (b - a ≤ 9)%nat →
  keeps_plain imp
    (set_context
       {| agencies :=
            <[PyStr.strip (PyStr.slice a b line) := agency]>
              (agencies (_context imp));
          origins := origins (_context imp) |} imp).
Proof.
  intros Hab (H1 & H2 & H3). split; [|by split].
  intros author. cbn. rewrite lookup_insert.
  case_decide as E.
  - intros _. subst author.
    pose proof (length_strip_slice a b line). lia.
  - apply H1.
Qed.

#[export] Hint Resolve keeps_plain_eventsource keeps_plain_agency
  keeps_plain_event keeps_plain_origin keeps_plain_rename_event
  keeps_plain_set_state keeps_plain_set_initial
  keeps_plain_set_origin_block keeps_plain_insert_origin : isf.
#[export] Hint Extern 1 (keeps_plain _ (set_context _ _)) =>
  (apply keeps_plain_insert_author; lia) : isf.

Lemma _save_measure_keeps_plain event agency_name key scale v e :
  preserves keeps_plain (_save_measure event agency_name key scale v e).
Proof.
  intros imp Hp. unfold _save_measure, mbind, on_catalogue, get.
  pose proof (keeps_plain_agency
                {| source_key := agency_name;
                   eventsource := eventsource event |} tt imp Hp) as Hp1.
  destruct (get_or_create AgencyC _ tt (_catalogue imp)) as [cat [r|err]];
    [|exact Hp1].
  cbn [fst] in Hp1. cbn [_context set_catalogue].
  destruct Hp1 as (Hs & Hw & Hst).
  destruct (agencies (_context imp) !! "agency_name") as [[a created]|] eqn:Ea.
  { specialize (Hs "agency_name" ltac:(by eexists)). simpl in Hs. lia. }
  destruct (origins (_context imp) !! key) as [origin|]; [|by split].
  cbn [_catalogue set_catalogue].
  unfold get_or_create. cbv zeta. cbn [log violates calls working stored].
  destruct (violates _ _); [by split|].
  destruct (List.filter _ _); [|by split].
  split; [exact Hs|]. split; [|exact Hst].
  unfold keyed_by_agency. cbn. apply Forall_app. split; [exact Hw|].
  constructor; [|constructor]. by eexists.
Qed.

Lemma process_line_keeps_plain line :
  preserves keeps_plain (process_line line).
Proof.
  unfold process_line. apply preserves_bind; [apply preserves_get|].
  intros imp0.
  destruct (_state imp0) as [|es ev|ev|event a o m|ev m|event m|event m].
  - unfold StartState_process_line. frame.
  - unfold EventState_process_line. frame.
  - frame.
  - unfold OriginBlockState_process_line, _process_agency, _save_agency.
    frame.
  - frame.
  - unfold MeasureBlockState_process_line.
    repeat first [apply _save_measure_keeps_plain | frame_step].
  - unfold MeasureUKScaleBlockState_process_line.
    repeat first [apply _save_measure_keeps_plain | frame_step].
Qed.

Lemma try_decode_keeps_plain lt line :
  preserves keeps_plain (try_decode lt line).
Proof.
  unfold try_decode.
  apply preserves_bind; [unfold transition_rule; frame | intros next_state].
  apply preserves_bind; [| intros _; apply process_line_keeps_plain].
  apply preserves_modify. auto with isf.
Qed.

Lemma keeps_plain_rollback imp :
  keeps_plain imp (set_catalogue (rollback (_catalogue imp)) imp).
Proof. by intros (H1 & H2 & H3). Qed.

Lemma store_line_keeps_plain aj n line :
  preserves keeps_plain (store_line aj n line).
Proof.
  intros imp. rewrite store_line_unfold. cbv zeta.
  pose proof (try_decode_keeps_plain
                (_detect_line_type imp (PyStr.strip line))
                (PyStr.strip line) imp) as Hd.
  destruct (_detect_line_type imp (PyStr.strip line)); try reflexivity;
    destruct (try_decode _ _ imp) as [imp1 [out|e]]; simpl in *;
    try exact Hd;
    destruct e; simpl; try exact Hd;
    try (etrans; [exact Hd | apply keeps_plain_rollback]);
    try (destruct (_ && _ && aj); simpl;
         [exact Hd | etrans; [exact Hd | apply keeps_plain_rollback]]).
Qed.



(** *** The summary *)

Lemma added_cons k nr out b :
  added b ((k, nr) :: out)
  = if bool_decide (k = b) then nr + added b out else added b out.
Proof. unfold added. simpl. by case_bool_decide. Qed.

Lemma added_not_named b out : b ∉ out.*1 → added b out = 0.
Proof.
  induction out as [|[k nr] out IH]; [done|].
  rewrite fmap_cons, not_elem_of_cons. intros [Hne Hin].
  rewrite added_cons, bool_decide_false by done. by apply IH.
Qed.

Lemma merged_counts out :
  ∀ (c : gmap bucket Z) b,
    foldl (λ c item, <[item.1 := default 0 (c !! item.1) + item.2]> c) c out
      !! b
    = if bool_decide (b ∈ out.*1)
      then Some (default 0 (c !! b) + added b out)
      else c !! b.
Proof.
  induction out as [|[k nr] out IH]; intros c b; [done|].
  cbn [foldl]. rewrite IH, fmap_cons, added_cons. cbn [fst snd].
  destruct (decide (k = b)) as [->|Hkb].
  - rewrite (bool_decide_true (b = b)) by done.
    rewrite lookup_insert_eq. cbn [default].
    rewrite (bool_decide_true (b ∈ b :: _)) by apply list_elem_of_here.
    destruct (decide (b ∈ out.*1)) as [Hin|Hin].
    + rewrite bool_decide_true by done. f_equal. unfold id. lia.
    + rewrite bool_decide_false, added_not_named by done. f_equal.
      unfold id. lia.
  - rewrite (bool_decide_false (k = b)) by done.
    rewrite lookup_insert_ne by done.
    destruct (decide (b ∈ out.*1)) as [Hin|Hin].
    + rewrite !bool_decide_true; [done| |done].
      by apply list_elem_of_further.
    + rewrite !bool_decide_false; [done| |done].
      rewrite elem_of_cons. intros [?|?]; congruence.
Qed.

(** X13: [update_summary] adds, bucket by bucket. A bucket the output
    names gets the sum of the counts the output gives it, on top of
    what it held, or of zero when it held nothing; a bucket the output
    does not name is left as it was, and so is the list of errors. *)
Theorem update_summary_adds out imp b :
  let imp' := (update_summary out imp).1 in
  counts (_summary imp') !! b
  = (if bool_decide (b ∈ out.*1)
     then Some (default 0 (counts (_summary imp) !! b) + added b out)
     else counts (_summary imp) !! b)
  ∧ ERRORS (_summary imp') = ERRORS (_summary imp)
  ∧ _catalogue imp' = _catalogue imp
  ∧ _state imp' = _state imp
  ∧ _context imp' = _context imp.
Proof. cbv zeta. split; [apply merged_counts | done]. Qed.

Section Returns.
Context {B : Type} (Q : B → Prop).

Lemma returns_ret b : Q b → returns_only Q (ret b).
Proof. by intros H imp imp' a [= _ <-]. Qed.

Lemma returns_raise e : returns_only Q (raise e).
Proof. by intros imp imp' a. Qed.

Lemma returns_bind {A} (m : M A) (k : A → M B) :
  (∀ a, returns_only Q (k a)) → returns_only Q (mbind m k).
Proof.
  intros Hk imp imp' b. unfold mbind.
  destruct (m imp) as [imp1 [a|e]]; [apply Hk | done].
Qed.
End Returns.

Lemma unit_output_one b created : unit_output [(b, one_if created)].
Proof.
  split; [apply NoDup_singleton|]. repeat constructor; destruct created; simpl; lia.
Qed.

Ltac returns_step :=
  first
    [ apply returns_raise
    | apply returns_ret; first [apply unit_output_one | by split; constructor]
    | apply returns_bind; intros ?
    | match goal with
      | |- returns_only _ (match ?x with _ => _ end) => destruct x
      | |- returns_only _ (if ?b then _ else _) => destruct b
      | |- returns_only _ (let _ := _ in _) => cbv zeta
      end ].

Lemma process_line_unit_output line :
  returns_only unit_output (process_line line).
Proof.
  unfold process_line. apply returns_bind. intros imp0.
  destruct (_state imp0) as [|es ev|ev|event a o m|ev m|event m|event m].
  - unfold StartState_process_line. repeat returns_step.
  - unfold EventState_process_line. repeat returns_step.
  - repeat returns_step.
  - unfold OriginBlockState_process_line. repeat returns_step.
    apply returns_ret. split.
    + repeat constructor; rewrite ?elem_of_cons, ?elem_of_nil;
        intros H; repeat (destruct H as [H|H]; [discriminate H|]); exact H.
    + repeat constructor; simpl;
        repeat match goal with b : bool |- _ => destruct b end; simpl; lia.
  - repeat returns_step.
  - unfold MeasureBlockState_process_line. repeat returns_step.
  - unfold MeasureUKScaleBlockState_process_line. repeat returns_step.
Qed.

Lemma added_unit_output b out : unit_output out → 0 ≤ added b out ≤ 1.
Proof.
  intros [Hnd Hf]. induction out as [|[k nr] out IH]; [done|].
  rewrite fmap_cons in Hnd. apply NoDup_cons in Hnd as [Hk Hnd].
  apply Forall_cons in Hf as [Hnr Hf]. simpl in Hnr, Hk.
  rewrite added_cons. case_bool_decide as E; [|by apply IH].
  subst k. rewrite added_not_named by done. lia.
Qed.

Lemma store_line_counts_within aj n line k imp :
  0 ≤ k → counts_within k imp →
  counts_within (k + 1) (store_line aj n line imp).1.
Proof.
  intros Hk Hc.
  assert (∀ imp1, counts (_summary imp1) = counts (_summary imp) →
                  counts_within (k + 1) imp1) as Hsame.
  { intros imp1 E b. unfold counts_within in Hc. specialize (Hc b).
    rewrite E. lia. }
  rewrite store_line_unfold. cbv zeta.
  pose proof (try_decode_decodes
                (_detect_line_type imp (PyStr.strip line))
                (PyStr.strip line) imp) as [_ _ _ _ _ _ Hsum].
  assert (∀ imp1 out,
            try_decode (_detect_line_type imp (PyStr.strip line))
              (PyStr.strip line) imp = (imp1, Ok out) →
            counts_within (k + 1) (counted out imp1)) as Hcounted.
  { intros imp1 out Ht b. rewrite Ht in Hsum. simpl in Hsum.
    unfold counted, update_summary, modify. cbn.
    rewrite merged_counts, Hsum. specialize (Hc b).
    case_bool_decide; [|lia]. cbn [from_option]. unfold id in *.
    assert (unit_output out) as Hu.
    { revert Ht. unfold try_decode, mbind.
      destruct (transition_rule _ imp) as [i1 [st|?]]; [|done].
      cbn [_transition modify].
      destruct (process_line _ _) as [i2 [out'|?]] eqn:Hp; [|done].
      intros [= _ <-]. by eapply process_line_unit_output. }
    pose proof (added_unit_output b out Hu). lia. }
  destruct (_detect_line_type imp (PyStr.strip line));
    try (by apply Hsame);
    destruct (try_decode _ _ imp) as [imp1 [out|e]]; simpl in Hsum;
    try (by apply Hcounted);
    (destruct e; try (by apply Hsame; simpl; rewrite Hsum);
     destruct (_ && _ && aj); by apply Hsame; simpl; rewrite Hsum).
Qed.



Lemma group_from groups measures key :
  foldl Grouping.group_step groups measures !! key
  = match filter (λ m, source_key (mk_event (mm_key m)) = key) measures with
    | [] => groups !! key
    | l => Some (default [] (groups !! key) ++ l)
    end.
Proof.
  revert groups.
  induction measures as [|m measures IH]; intros groups; [done|].
  cbn [foldl]. rewrite IH. unfold Grouping.group_step. cbv zeta.
  destruct (decide (source_key (mk_event (mm_key m)) = key)) as [E|E].
  - rewrite filter_cons_True by done. rewrite E.
    assert ((alter (λ l, l ++ [m]) key
               (if bool_decide (groups !! key = None)
                then <[key := []]> groups else groups)) !! key
            = Some (default [] (groups !! key) ++ [m])) as ->.
    { rewrite lookup_alter_eq. case_bool_decide as N.
      - by rewrite lookup_insert_eq, N.
      - by destruct (groups !! key). }
    cbn [default from_option]. unfold id.
    destruct (filter _ measures); [done|]. by rewrite <-app_assoc.
  - rewrite filter_cons_False by done.
    rewrite lookup_alter_ne by done.
    case_bool_decide; [|done]. by rewrite lookup_insert_ne.
Qed.

(** X15: [GroupMeasuresByEventSourceKey.group] maps an event key to
    the measures of the events with that source key, in the order of
    the input, and has no entry for a key that no measure has; so the
    groups are not empty and every measure is in the group of its
    key. *)
Theorem group_is_filter_by_key measures key :
  Grouping.group measures !! key
  = match filter (λ m, source_key (mk_event (mm_key m)) = key) measures with
    | [] => None
    | l => Some l
    end.
Proof.
  unfold Grouping.group. rewrite group_from, lookup_empty.
  by destruct (filter _ measures).
Qed.

Section Provenance.
Context {ConversionFormula : Type}.
Context (target_scale : ConversionFormula → string).
Import Conversion.

(** X16: however many times a measure is converted, the result names
    the measure it began with as its original, lists the formulas in
    the order they were applied, has the target scale, the value and
    the standard error of the last conversion, and the agency, event
    and origin of the original. *)
Theorem conversions_keep_provenance (m : MagnitudeMeasure)
    (c : conversion) (cs : list conversion) :
  let r := convert_all target_scale m c cs in
  let final := default c (last cs) in
  original_measure r = Some m
  ∧ formulas r = by_formula <$> (c :: cs)
  ∧ cm_scale r = target_scale (by_formula final)
  ∧ cm_value r = new_value final
  ∧ cm_standard_error r = with_error final
  ∧ cm_agency r = mk_agency (mm_key m)
  ∧ cm_event r = mk_event (mm_key m)
  ∧ cm_origin r = mk_origin (mm_key m).
Proof.
  cbv zeta. induction cs as [|c' cs IH] using rev_ind.
  - by split_and!.
  - unfold convert_all in *. rewrite foldl_app, last_snoc. cbn [foldl default].
    destruct IH as (IH1 & IH2 & _ & _ & _ & IH6 & IH7 & IH8).
    split_and!; try done.
    cbn. rewrite IH2. rewrite fmap_cons, fmap_app.
    by destruct (by_formula <$> cs).
Qed.
End Provenance.

Lemma rename_keeps_keys k name (l : list Event) :
  ev_key <$>
    ((λ e : Event,
        if bool_decide (ev_key e = k)
        then {| ev_key := ev_key e; ev_name := name |} else e) <$> l)
  = ev_key <$> l.
Proof.
  rewrite <-list_fmap_compose. apply list_fmap_ext. intros _ e _. simpl.
  by case_bool_decide.
Qed.

Lemma rename_keeps_others k name (l : list Event) e :
  ev_key e ≠ k →
  e ∈ (λ e : Event,
         if bool_decide (ev_key e = k)
         then {| ev_key := ev_key e; ev_name := name |} else e) <$> l
  ↔ e ∈ l.
Proof.
  intros Hne. rewrite list_elem_of_fmap. split.
  - intros (e0 & -> & Hin). revert Hne. case_bool_decide; [|done].
    simpl. congruence.
  - intros Hin. exists e. split; [|done]. by rewrite bool_decide_eq_false_2.
Qed.

Lemma rename_names k name (l : list Event) e :
  e ∈ l → ev_key e = k →
  {| ev_key := k; ev_name := name |}
  ∈ (λ e : Event,
       if bool_decide (ev_key e = k)
       then {| ev_key := ev_key e; ev_name := name |} else e) <$> l.
Proof.
  intros Hin Hk. apply list_elem_of_fmap. exists e. split; [|done].
  by rewrite bool_decide_eq_true_2, Hk.
Qed.

Lemma head_filter_elem {A} (f : A → bool) l o :
  head (List.filter f l) = Some o → o ∈ l ∧ f o = true.
Proof.
  intros H. assert (In o (List.filter f l)) as Hin.
  { destruct (List.filter f l); [done|]. injection H as ->. by left. }
  apply filter_In in Hin as [Hin Hf]. split; [|done].
  by apply list_elem_of_In.
Qed.

(** X17: a call of [_save_event] that returns leaves an event with the
    key and the name of the line in the session, whether the event was
    created or found under another name; it reports the event as
    created exactly when no event had the key; the keys of the events
    are those from before, with the key appended when the event was
    created; the events with other keys are untouched; and the state
    holds the event. *)
Theorem saved_event_takes_the_name eventsource source_event_id name
    imp imp' created :
  _save_event eventsource source_event_id name imp = (imp', Ok created) →
  let k := {| source_key := source_event_id; eventsource := eventsource |} in
  let before := tbl_events (working (_catalogue imp)) in
  let after := tbl_events (working (_catalogue imp')) in
  {| ev_key := k; ev_name := name |} ∈ after
  ∧ (created = true ↔ k ∉ ev_key <$> before)
  ∧ ev_key <$> after = (ev_key <$> before) ++ (if created then [k] else [])
  ∧ (∀ e, ev_key e ≠ k → e ∈ after ↔ e ∈ before)
  ∧ _state imp' = EventS eventsource (Some k).
Proof.
  cbv zeta. unfold _save_event, mbind, on_catalogue, modify, ret.
  set (k := {| source_key := source_event_id;
               eventsource := eventsource |}).
  destruct (get_or_create EventC k tt (_catalogue imp))
    as [cat1 [[event c]|e]] eqn:Hg; cbn beta iota; [|done].
  pose proof (get_or_create_spec EventC ev_key EventC_keyed _ _ _ _ _ Hg)
    as (_ & _ & Hr).
  destruct c.
  - destruct Hr as (Hnil & -> & Htab). cbn [table EventC] in Htab.
    apply (filter_nil_not_in EventC ev_key EventC_keyed) in Hnil.
    cbn [table EventC] in Hnil. cbn [construct EventC ev_key ev_name].
    case_bool_decide as Hn; intros [= <- <-];
      cbn [_catalogue _state set_catalogue set_state rename_event
           set_working working set_table EventC tbl_events].
    + split_and!; try done.
      * rewrite Htab.
        apply (rename_names k name _ {| ev_key := k; ev_name := None |});
          [|done].
        apply elem_of_app. right. by apply list_elem_of_singleton.
      * by rewrite rename_keeps_keys, Htab, fmap_app.
      * intros e He. rewrite rename_keeps_others, Htab by done.
        rewrite elem_of_app, list_elem_of_singleton. split; [|by left].
        intros [?| ->]; [done|]. by destruct He.
    + split_and!; try done.
      * rewrite Htab. apply elem_of_app. right. apply list_elem_of_singleton.
        destruct name; [by destruct Hn|done].
      * by rewrite Htab, fmap_app.
      * intros e He. rewrite Htab, elem_of_app, list_elem_of_singleton.
        split; [|by left]. intros [?| ->]; [done|]. by destruct He.
  - destruct Hr as (Hw & Hhead). cbn [table EventC] in Hhead.
    apply head_filter_elem in Hhead as [Hin Hf].
    rewrite (keyed_filter _ _ EventC_keyed) in Hf.
    apply bool_decide_eq_true in Hf.
    assert (k ∈ ev_key <$> tbl_events (working (_catalogue imp))) as Hk.
    { apply list_elem_of_fmap. by exists event. }
    case_bool_decide as Hn; intros [= <- <-];
      cbn [_catalogue _state set_catalogue set_state rename_event
           set_working working set_table EventC tbl_events];
      rewrite Hw, ?rename_keeps_keys, app_nil_r, Hf.
    + split_and!; try done.
      * by apply (rename_names k name _ event).
      * intros e He. by rewrite rename_keeps_others.
    + split_and!; try done.
      destruct (decide (ev_name event = name)) as [E|E]; [|by destruct Hn].
      destruct event as [ek en]. simpl in *. by subst.
Qed.

Lemma saved_event_takes_the_name_witness :
  let imp := (store true Sample.block1 (init Sample.empty_catalogue)).1 in
  let imp' := (_save_event Sample.isc "14342462" (Some "Elsewhere") imp).1 in
  {| ev_key := {| source_key := "14342462"; eventsource := Sample.isc |};
     ev_name := Some "Elsewhere" |}
  ∈ tbl_events (working (_catalogue imp')).
Proof.
  cbv zeta.
  destruct (_save_event Sample.isc "14342462" (Some "Elsewhere")
              (store true Sample.block1 (init Sample.empty_catalogue)).1)
    as [imp' [created|e]] eqn:Hs.
  - by destruct (saved_event_takes_the_name _ _ _ _ _ _ Hs) as [H _].
  - exfalso. revert Hs. vm_compute. discriminate.
Defined.
